(** * chainmintcli: the command-line control client of a chainmint core

    A shallow embedding of [cmd/chainmintcli/main.go] and the properties of
    its dispatcher, transport bootstrap, guard encoding, liveness poller and
    error reporter.

    Go strings are byte strings: they are modelled as [string] (a list of
    bytes), lengths and indices as [Z].  The process talks to its
    environment through a chronological trace of events (writes to the two
    standard streams, RPC calls, sleeps); the replies of the remote core are
    a script the program consumes one call at a time. *)

From Stdlib Require Import ZArith Ascii String List Lia Bool.
From stdpp Require Import base option gmap strings list.

Local Open Scope Z_scope.

(** ** Go strings *)

Module GoString.

(** [len(s)] *)
Definition len (s : string) : Z := Z.of_nat (String.length s).

Fixpoint take (n : nat) (s : string) : string :=
  match n, s with
  | S n', String c s' => String c (take n' s')
  | _, _ => EmptyString
  end.

Fixpoint drop (n : nat) (s : string) : string :=
  match n, s with
  | S n', String _ s' => drop n' s'
  | _, _ => s
  end.

(** [s[lo:hi]]: a run-time panic ([None]) unless [0 <= lo <= hi <= len(s)]. *)
Definition slice (s : string) (lo hi : Z) : option string :=
  if (0 <=? lo) && (lo <=? hi) && (hi <=? len s)
  then Some (take (Z.to_nat (hi - lo)) (drop (Z.to_nat lo) s))
  else None.

(** [s[:k]] and [s[k:]] *)
Definition slice_to (s : string) (k : Z) : option string := slice s 0 k.
Definition slice_from (s : string) (k : Z) : option string := slice s k (len s).

(** [strings.HasPrefix(s, p)] *)
Definition HasPrefix (s p : string) : bool := String.prefix p s.

(** Position of the first occurrence of [sep] in [s], if any. *)
Fixpoint index_of (s sep : string) : option nat :=
  if String.prefix sep s then Some 0%nat
  else match s with
       | EmptyString => None
       | String _ s' => S <$> index_of s' sep
       end.

(** [strings.Index(s, sep)]: the index of the first instance of [sep] in
    [s], or -1 if [sep] is not present in [s]. *)
Definition Index (s sep : string) : Z :=
  match index_of s sep with
  | Some i => Z.of_nat i
  | None => -1
  end.

(** [strings.TrimPrefix(s, p)] *)
Definition TrimPrefix (s p : string) : string :=
  if HasPrefix s p then drop (String.length p) s else s.

Fixpoint map_bytes (f : ascii -> ascii) (s : string) : string :=
  match s with
  | EmptyString => EmptyString
  | String c s' => String (f c) (map_bytes f s')
  end.

Fixpoint all_bytes (p : ascii -> bool) (s : string) : bool :=
  match s with
  | EmptyString => true
  | String c s' => p c && all_bytes p s'
  end.

Definition byte_lt_RuneSelf (c : ascii) : bool := (N_of_ascii c <? 128)%N.

(** ['a' <= c && c <= 'z'] then [c -= 'a' - 'A'] *)
Definition upper_byte (c : ascii) : ascii :=
  let n := N_of_ascii c in
  if ((97 <=? n) && (n <=? 122))%N then ascii_of_N (n - 32) else c.

Definition isASCII (s : string) : bool := all_bytes byte_lt_RuneSelf s.

(** [strings.Join(l, sep)] *)
Fixpoint Join (l : list string) (sep : string) : string :=
  match l with
  | [] => EmptyString
  | [x] => x
  | x :: l' => x +:+ sep +:+ Join l' sep
  end.

End GoString.

Import GoString.

(** The new-line byte, which literals of this file never contain. *)
Definition nl : string := String (ascii_of_N 10) EmptyString.
Definition tab : string := String (ascii_of_N 9) EmptyString.

(** ** splitAfter2 *)

(** [splitAfter2] is like [strings.SplitAfterN] with [n=2].  The two slice
    expressions of its [return] can panic, which is the result [None]. *)
Definition splitAfter2 (s sep : string) : option (string * string) :=
  let i := Index s sep in
  let k := i + len sep in
  a ← slice_to s k;
  b ← slice_from s k;
  Some (a, b).

(** ** Values sent to the core *)

(** The dynamic values ([interface{}]) the handlers build: [nil], booleans,
    strings, and maps keyed by strings.  The maps are written as association
    lists in the order of the source's literal; JSON rendering sorts them. *)
#[warnings="-register-all"]
Inductive value : Type :=
| VNil
| VBool (b : bool)
| VString (s : string)
| VMap (m : list (string * value)).

Record grantReq : Type := mk_grantReq {
  Policy : string;      (* json:"policy" *)
  GuardType : string;   (* json:"guard_type" *)
  GuardData : value     (* json:"guard_data" *)
}.

(** The [request interface{}] argument of [rpc.Client.Call]. *)
Inductive Request : Type :=
| ReqNil
| ReqValue (v : value)
| ReqGrant (r : grantReq).

(** ** The RPC client and its errors *)

(** [time.Duration] counts nanoseconds. *)
Definition time_Millisecond : Z := 1000000.
Definition time_Second : Z := 1000 * time_Millisecond.

(** The [*tls.Config] that [core.TLSConfig] builds is kept symbolic: it is
    the configuration loaded from the named files. *)
Inductive tls_Config : Type :=
| TLSConfigOf (certFile keyFile rootCAs : string).

Record net_Dialer : Type := {
  Timeout : Z;
  KeepAlive : Z;
  DualStack : bool
}.

Record http_Transport : Type := {
  DialContext : net_Dialer;
  MaxIdleConns : Z;
  IdleConnTimeout : Z;
  TLSClientConfig : tls_Config;
  TLSHandshakeTimeout : Z;
  ExpectContinueTimeout : Z
}.

Record http_Client : Type := { Transport : http_Transport }.

(** [rpc.Client]; a nil [Client] field is [None]. *)
Record rpc_Client : Type := {
  BaseURL : string;
  Client : option http_Client
}.

(** The [ErrorData] payload of [rpc.ErrStatusCode], with the fields the
    command reads. *)
Record respErr : Type := {
  ChainCode : string;
  Message : string;
  Detail : string
}.

Record ErrStatusCode : Type := {
  URL : string;
  StatusCode : Z;
  ErrorData : option respErr
}.

(** What [errors.Root(err)] is: an [rpc.ErrStatusCode] or a value of some
    other type. *)
Inductive root_error : Type :=
| RootStatus (e : ErrStatusCode)
| RootOther.

(** A non-nil [error]: its root and the text of [err.Error()]. *)
Record error : Type := {
  Root : root_error;
  Error : string
}.

(** The result of [core.TLSConfig(certFile, keyFile, rootCAs)]. *)
Inductive TLSResult : Type :=
| ErrNoTLS
| TLSError (err : string)
| TLSLoaded (config : tls_Config).

(** ** The process and its environment *)

Inductive Stream : Type := Stdout | Stderr.

Inductive Event : Type :=
| EWrite (f : Stream) (text : string)
| ECall (c : rpc_Client) (path : string) (request : Request)
| ESleep (d : Z).

(** One answer of the remote core: the error [Call] returns ([None] is
    [nil]) and what the call logged meanwhile. *)
Record Reply : Type := {
  reply_err : option error;
  reply_log : string
}.

Record World : Type := mk_World {
  logbuf : string;        (* var logbuf bytes.Buffer, unread part *)
  script : list Reply;    (* the answers still to come *)
  trace : list Event      (* what the process did, oldest first *)
}.

(** How a computation ends: it returns, the process exits, a run-time
    panic, a call the script has no answer for, or the model's fuel ran
    out. *)
Inductive Outcome (A : Type) : Type :=
| Returned (a : A)
| Exited (status : Z)
| Panicked
| Blocked
| OutOfFuel.

Arguments Returned {A} a.
Arguments Exited {A} status.
Arguments Panicked {A}.
Arguments Blocked {A}.
Arguments OutOfFuel {A}.

Definition M (A : Type) : Type := World -> Outcome A * World.

#[global] Instance M_ret : MRet M := fun A a w => (Returned a, w).

#[global] Instance M_bind : MBind M := fun A B k m w =>
  match m w with
  | (Returned a, w') => k a w'
  | (Exited n, w') => (Exited n, w')
  | (Panicked, w') => (Panicked, w')
  | (Blocked, w') => (Blocked, w')
  | (OutOfFuel, w') => (OutOfFuel, w')
  end.

Definition emit (ev : Event) : M unit := fun w =>
  (Returned tt, {| logbuf := logbuf w; script := script w; trace := trace w ++ [ev] |}).

Definition panic {A} : M A := fun w => (Panicked, w).

(** [os.Exit(code)] *)
Definition os_Exit {A} (code : Z) : M A := fun w => (Exited code, w).

(** [l[i]], which panics out of range. *)
Definition at_index (l : list string) (i : nat) : M string :=
  match l !! i with
  | Some x => mret x
  | None => panic
  end.

Definition of_option {A} (o : option A) : M A :=
  match o with
  | Some x => mret x
  | None => panic
  end.

(** [fmt.Fprint(w, s)] with one string operand. *)
Definition Fprint (f : Stream) (s : string) : M unit := emit (EWrite f s).

(** [fmt.Fprintln(w, v...)]: the operands separated by spaces, then a
    new line.  The operands are given by their default formats. *)
Definition Fprintln (f : Stream) (v : list string) : M unit :=
  emit (EWrite f (Join v " " +:+ nl)).

(** [io.Copy(os.Stderr, &logbuf)]: the unread part of the buffer is written
    to the error stream (nothing is written when it is empty) and the buffer
    is left empty. *)
Definition copy_logbuf : M unit := fun w =>
  (Returned tt,
   {| logbuf := EmptyString;
      script := script w;
      trace := trace w ++ (if decide (logbuf w = EmptyString) then []
                           else [EWrite Stderr (logbuf w)]) |}).

(** [client.Call(ctx, path, request, response)]: the call is made, the next
    answer of the script is consumed, its log output lands in [logbuf]. *)
Definition Call (c : rpc_Client) (path : string) (request : Request)
  : M (option error) := fun w =>
  match script w with
  | [] =>
      (Blocked,
       {| logbuf := logbuf w; script := [];
          trace := trace w ++ [ECall c path request] |})
  | r :: rest =>
      (Returned (reply_err r),
       {| logbuf := logbuf w +:+ reply_log r; script := rest;
          trace := trace w ++ [ECall c path request] |})
  end.

(** [time.Sleep(d)] *)
Definition time_Sleep (d : Z) : M unit := emit (ESleep d).

(** A [for { ... }] loop whose body says whether it breaks. *)
Fixpoint for_ever (fuel : nat) (body : M bool) : M unit :=
  match fuel with
  | O => fun w => (OutOfFuel, w)
  | S fuel' => brk ← body; if brk : bool then mret tt else for_ever fuel' body
  end.

(** A [for _, x := range l { ... }] loop. *)
Fixpoint for_range {A} (l : list A) (body : A -> M unit) : M unit :=
  match l with
  | [] => mret tt
  | x :: l' => body x;; for_range l' body
  end.

(** The text written to a stream, by a list of events. *)
Fixpoint written (f : Stream) (evs : list Event) : string :=
  match evs with
  | [] => EmptyString
  | EWrite Stdout s :: evs' =>
      match f with Stdout => s +:+ written f evs' | Stderr => written f evs' end
  | EWrite Stderr s :: evs' =>
      match f with Stderr => s +:+ written f evs' | Stdout => written f evs' end
  | _ :: evs' => written f evs'
  end.

(** The RPC calls among a list of events. *)
Fixpoint calls (evs : list Event) : list (rpc_Client * string * Request) :=
  match evs with
  | [] => []
  | ECall c p r :: evs' => (c, p, r) :: calls evs'
  | _ :: evs' => calls evs'
  end.

(** ** The flag package, for a [FlagSet] with no flag defined *)

(** The name of a flag: [name[0:i]] for the first [i >= 1] with
    [name[i] == '='], the whole of [name] without one. *)
Definition flag_name (name : string) : string :=
  match name with
  | EmptyString => EmptyString
  | String c rest =>
      match index_of rest "=" with
      | Some i => String c (take i rest)
      | None => name
      end
  end.

(** [flags.Parse(args); flags.Args()] on the zero [flag.FlagSet] whose
    [Usage] is [usage].  No flag is defined, so [parseOne] runs once: it
    stops at a non-flag argument or after [--], and anything that looks like
    a flag is reported and [usage] is called. *)
Definition flag_Parse (usage : M unit) (args : list string) : M (list string) :=
  match args with
  | [] => mret args
  | s :: rest =>
      if (len s <? 2) || negb (HasPrefix s "-") then mret args
      else
        let numMinuses := if HasPrefix (drop 1 s) "-" then 2%nat else 1%nat in
        if (numMinuses =? 2)%nat && (len s =? 2) then mret rest
        else
          let name := drop numMinuses s in
          if (len name =? 0) || HasPrefix name "-" || HasPrefix name "=" then
            Fprintln Stderr ["bad flag syntax: " +:+ s];;
            usage;;
            mret args
          else
            let name := flag_name name in
            if decide (name = "help" \/ name = "h") then
              usage;;
              mret rest
            else
              Fprintln Stderr ["flag provided but not defined: -" +:+ name];;
              usage;;
              mret rest
  end.

(** ** What the command takes from outside this file *)

(** Functions of packages the command imports and whose code is elsewhere,
    and the handlers of the commands that are not studied here. *)
Record External : Type := {
  (** [core.TLSConfig], which reads the two files *)
  core_TLSConfig : string -> string -> string -> TLSResult;
  (** [filepath.Join] of two elements *)
  filepath_Join : string -> string -> string;
  (** [strings.Map(unicode.ToUpper, s)], where [strings.ToUpper] goes for a
      string with a byte outside ASCII *)
  unicode_ToUpper : string -> string;
  createBlockKeyPair : rpc_Client -> list string -> M unit;
  createAccount : rpc_Client -> list string -> M unit;
  updateAccountTags : rpc_Client -> list string -> M unit;
  createAsset : rpc_Client -> list string -> M unit;
  updateAssetTags : rpc_Client -> list string -> M unit
}.

(** The inputs of one run of the process. *)
Record Env : Type := {
  os_Args : list string;
  (** [core.HomeDirFromEnvironment()] *)
  home : string;
  (** [*coreURL] once [env.Parse()] has run: the value of [BYTOM_URL], or
      the default [http://localhost:1999] *)
  coreURL : string;
  (** build vars; initialized by the linker *)
  buildTag : string;
  buildCommit : string;
  buildDate : string;
  (** the order in which [range] visits the keys of a map, which the
      runtime chooses *)
  range_order : list string -> list string
}.

Record command : Type := { f : rpc_Client -> list string -> M unit }.

Section Program.

Context (X : External).

(** [strings.ToUpper]: byte by byte on an ASCII string. *)
Definition ToUpper (s : string) : string :=
  if isASCII s then map_bytes upper_byte s else unicode_ToUpper X s.

(** [os.Exit] does not return, so neither does [fatalln]: it stands for
    a value of any type. *)
Definition fatalln {A} (v : list string) : M A :=
  copy_logbuf;;
  Fprintln Stderr v;;
  os_Exit 2.

Definition dieOnRPCError (err : option error) (prefixes : list string) : M unit :=
  match err with
  | None => mret tt
  | Some err =>
      copy_logbuf;;
      (if (0 <? length prefixes)%nat then Fprintln Stderr prefixes
       else mret tt);;
      match Root err with
      | RootStatus {| ErrorData := Some d |} =>
          Fprintln Stderr ["RPC error:"; ChainCode d; Message d];;
          if decide (Detail d <> EmptyString)
          then Fprintln Stderr ["Detail:"; Detail d]
          else mret tt
      | _ => Fprintln Stderr ["RPC error:"; Error err]
      end;;
      os_Exit 2
  end.

(** The body of [help], given the names that [range commands] yields. *)
Definition help_with (names : list string) (w : Stream) : M unit :=
  Fprintln w ["usage: corectl [-version] [command] [arguments]"];;
  Fprint w (nl +:+ "The commands are:" +:+ nl +:+ nl);;
  for_range names (fun name => Fprintln w [tab; name]);;
  Fprint w (nl +:+ "Flags:" +:+ nl);;
  Fprintln w [tab +:+ "-version   print version information"];;
  Fprintln w [].

Definition reset (client : rpc_Client) (args : list string) : M unit :=
  (if negb (length args =? 0)%nat
   then fatalln ["error: reset takes no args"] else mret tt);;
  let req := VMap [("Everything", VBool true)] in
  err ← Call client "/reset" (ReqValue req);
  dieOnRPCError err [].

(** The raw string literal that [flags.Usage] prints in [editAuthz]. *)
Definition guard_help : string :=
  nl +:+
  "Where guard is one of:" +:+ nl +:+
  "  token=[id]   to affect an access token" +:+ nl +:+
  "  CN=[name]    to affect an X.509 Common Name" +:+ nl +:+
  "  OU=[name]    to affect an X.509 Organizational Unit" +:+ nl +:+
  nl +:+
  "The type of guard (before the = sign) is case-insensitive." +:+ nl.

Definition authz_paths : gmap string string :=
  {[ "grant" := "/create-authorization-grant";
     "revoke" := "/delete-authorization-grant" ]}.

Definition editAuthz (client : rpc_Client) (args : list string) (action : string)
  : M unit :=
  let usage := "usage: corectl " +:+ action +:+ " [policy] [guard]" in
  let flags_Usage : M unit :=
    Fprintln Stderr [usage];;
    Fprintln Stderr [guard_help];;
    os_Exit 1 in
  args ← flag_Parse flags_Usage args;
  (if negb (length args =? 2)%nat then fatalln [usage] else mret tt);;
  args0 ← at_index args 0;
  args1 ← at_index args 1;
  let req := {| Policy := args0; GuardType := EmptyString; GuardData := VNil |} in
  '(typ, data) ← of_option (splitAfter2 args1 "=");
  req ←
    (let sw := ToUpper typ in
     if decide (sw = "TOKEN=") then
       mret {| Policy := Policy req;
               GuardType := "access_token";
               GuardData := VMap [("id", VString data)] |}
     else if decide (sw = "CN=") then
       mret {| Policy := Policy req;
               GuardType := "x509";
               GuardData := VMap [("subject", VMap [("CN", VString data)])] |}
     else if decide (sw = "OU=") then
       mret {| Policy := Policy req;
               GuardType := "x509";
               GuardData := VMap [("subject", VMap [("OU", VString data)])] |}
     else
       Fprintln Stderr ["unknown guard type"; typ];;
       fatalln [usage]);
  let path := default EmptyString (authz_paths !! action) in
  err ← Call client path (ReqGrant req);
  dieOnRPCError err [].

Definition grant (client : rpc_Client) (args : list string) : M unit :=
  editAuthz client args "grant".

Definition revoke (client : rpc_Client) (args : list string) : M unit :=
  editAuthz client args "revoke".

Definition mustRPCClient (e : Env) : M rpc_Client :=
  let certFile := filepath_Join X (home e) "tls.crt" in
  let keyFile := filepath_Join X (home e) "tls.key" in
  match core_TLSConfig X certFile keyFile EmptyString with
  | ErrNoTLS => mret {| BaseURL := coreURL e; Client := None |}
  | TLSError err => fatalln ["error: loading TLS cert:"; err]
  | TLSLoaded config =>
      let t := {| DialContext := {| Timeout := 30 * time_Second;
                                    KeepAlive := 30 * time_Second;
                                    DualStack := true |};
                  MaxIdleConns := 100;
                  IdleConnTimeout := 90 * time_Second;
                  TLSClientConfig := config;
                  TLSHandshakeTimeout := 10 * time_Second;
                  ExpectContinueTimeout := 1 * time_Second |} in
      let url := coreURL e in
      url ← (if HasPrefix url "http:"
             then rest ← of_option (slice_from url 5); mret ("https:" +:+ rest)
             else mret url);
      mret {| BaseURL := url; Client := Some {| Transport := t |} |}
  end.

(** The body of the [for] loop of [wait]; it returns whether the loop
    breaks. *)
Definition wait_body (client : rpc_Client) : M bool :=
  err ← Call client "/info" ReqNil;
  match err with
  | None => mret true
  | Some err =>
      match Root err with
      | RootStatus statusErr =>
          if decide (StatusCode statusErr ÷ 100 <> 5) then mret true
          else time_Sleep (500 * time_Millisecond);; mret false
      | RootOther => time_Sleep (500 * time_Millisecond);; mret false
      end
  end.

(** [fuel] bounds the number of iterations the model runs. *)
Definition wait (fuel : nat) (client : rpc_Client) (args : list string) : M unit :=
  (if negb (length args =? 0)%nat
   then fatalln ["error: wait takes no args"] else mret tt);;
  for_ever fuel (wait_body client).

Definition buildTransaction (client : rpc_Client) (args : list string) : M unit :=
  if negb (length args =? 0)%nat
  then fatalln ["error:updateAccountTags not use args"] else mret tt.

Definition commands (fuel : nat) : gmap string command :=
  {[ "create-block-keypair" := {| f := createBlockKeyPair X |};
     "reset" := {| f := reset |};
     "grant" := {| f := grant |};
     "revoke" := {| f := revoke |};
     "wait" := {| f := wait fuel |};
     "create-account" := {| f := createAccount X |};
     "update-account-tags" := {| f := updateAccountTags X |};
     "create-asset" := {| f := createAsset X |};
     "update-asset-tags" := {| f := updateAssetTags X |};
     "build-transaction" := {| f := buildTransaction |} ]}.

Definition help (e : Env) (fuel : nat) (w : Stream) : M unit :=
  help_with (range_order e (map fst (map_to_list (commands fuel)))) w.

Definition main (e : Env) (fuel : nat) : M unit :=
  if (2 <=? length (os_Args e))%nat && bool_decide (os_Args e !! 1%nat = Some "-version")
  then
    let version :=
      if decide (buildTag e <> "?") then TrimPrefix (buildTag e) "bytom-"
      else EmptyString in
    Fprint Stdout ("bytomcli " +:+ version +:+ nl);;
    Fprint Stdout ("build-commit: " +:+ buildCommit e +:+ nl);;
    Fprint Stdout ("build-date: " +:+ buildDate e +:+ nl)
  else
    (if (length (os_Args e) <? 2)%nat
     then help e fuel Stdout;; os_Exit 0
     else mret tt);;
    name ← at_index (os_Args e) 1;
    cmd ← match commands fuel !! name with
          | None =>
              Fprintln Stderr ["unknown command:"; name];;
              help e fuel Stderr;;
              os_Exit 1
          | Some cmd => mret cmd
          end;
    client ← mustRPCClient e;
    f cmd client (skipn 2 (os_Args e)).

End Program.

(** ** The JSON text of a request *)

(** [encoding/json] as [rpc.Client.Call] applies it to the request: struct
    fields in declaration order under their tags, map keys sorted, strings
    quoted with the HTML-safe escapes (a control byte other than new
    line, carriage return and tab as [\u00XX]).  The rendering is defined
    where the releases of Go agree and no decoding of UTF-8 is needed: the
    bytes 0x08 and 0x0c, which the encoder writes as [\u0008] and [\u000c]
    or, from Go 1.22 on, with a short escape, and the bytes from 0x80 on
    give [None]. *)
Module Json.

Definition dq : string := String (ascii_of_N 34) EmptyString.
Definition bslash : string := String (ascii_of_N 92) EmptyString.

Definition hex (n : N) : string :=
  String (ascii_of_N (if (n <? 10)%N then 48 + n else 87 + n)) EmptyString.

Definition escape_byte (c : ascii) : option string :=
  let n := N_of_ascii c in
  if ((n =? 34) || (n =? 92))%N then Some (bslash +:+ String c EmptyString)
  else if (n =? 10)%N then Some (bslash +:+ "n")
  else if (n =? 13)%N then Some (bslash +:+ "r")
  else if (n =? 9)%N then Some (bslash +:+ "t")
  else if ((n =? 8) || (n =? 12))%N then None
  else if ((n <? 32) || (n =? 60) || (n =? 62) || (n =? 38))%N
       then Some (bslash +:+ "u00" +:+ hex (n / 16) +:+ hex (n mod 16))
  else if (n <? 128)%N then Some (String c EmptyString)
  else None.

Fixpoint escape (s : string) : option string :=
  match s with
  | EmptyString => Some EmptyString
  | String c s' => a ← escape_byte c; b ← escape s'; Some (a +:+ b)
  end.

Definition quote (s : string) : option string :=
  e ← escape s; Some (dq +:+ e +:+ dq).

Fixpoint insert_by_key (kv : string * string) (l : list (string * string))
  : list (string * string) :=
  match l with
  | [] => [kv]
  | kv' :: l' =>
      if String.leb (fst kv) (fst kv') then kv :: l
      else kv' :: insert_by_key kv l'
  end.

Definition sort_by_key (l : list (string * string)) : list (string * string) :=
  foldr insert_by_key [] l.

Definition member (kv : string * string) : option string :=
  k ← quote (fst kv); Some (k +:+ ":" +:+ snd kv).

Fixpoint members (l : list (string * string)) : option (list string) :=
  match l with
  | [] => Some []
  | kv :: l' => m ← member kv; ms ← members l'; Some (m :: ms)
  end.

Definition object (l : list (string * string)) : option string :=
  ms ← members l; Some ("{" +:+ Join ms "," +:+ "}").

Fixpoint Marshal_value (v : value) : option string :=
  match v with
  | VNil => Some "null"
  | VBool b => Some (if b then "true" else "false")
  | VString s => quote s
  | VMap m =>
      let fix entries (l : list (string * value)) : option (list (string * string)) :=
        match l with
        | [] => Some []
        | (k, x) :: l' =>
            r ← Marshal_value x; rs ← entries l'; Some ((k, r) :: rs)
        end in
      es ← entries m; object (sort_by_key es)
  end.

Definition Marshal_grantReq (r : grantReq) : option string :=
  p ← quote (Policy r);
  t ← quote (GuardType r);
  d ← Marshal_value (GuardData r);
  object [("policy", p); ("guard_type", t); ("guard_data", d)].

Definition Marshal (r : Request) : option string :=
  match r with
  | ReqNil => Some "null"
  | ReqValue v => Marshal_value v
  | ReqGrant g => Marshal_grantReq g
  end.

(** A JSON text written with ['] where it has a double quote. *)
Definition text (s : string) : string :=
  map_bytes (fun c => if (N_of_ascii c =? 39)%N then ascii_of_N 34 else c) s.

End Json.

(** ** Shapes of guard data *)

(** [{id: string}] *)
Definition id_shape (v : value) : bool :=
  match v with
  | VMap [(k, VString _)] => bool_decide (k = "id")
  | _ => false
  end.

(** [{subject: {CN or OU: string}}] *)
Definition subject_shape (v : value) : bool :=
  match v with
  | VMap [(k, VMap [(k', VString _)])] =>
      bool_decide (k = "subject") && (bool_decide (k' = "CN") || bool_decide (k' = "OU"))
  | _ => false
  end.

(** Guard type and guard data agree: [access_token] exactly with the id
    shape, [x509] exactly with the subject shape, and one of the two. *)
Definition guard_consistent (r : grantReq) : bool :=
  Bool.eqb (bool_decide (GuardType r = "access_token")) (id_shape (GuardData r))
  && Bool.eqb (bool_decide (GuardType r = "x509")) (subject_shape (GuardData r))
  && (id_shape (GuardData r) || subject_shape (GuardData r)).

Definition grant_call_ok (ev : Event) : bool :=
  match ev with
  | ECall _ _ (ReqGrant r) => guard_consistent r
  | ECall _ _ _ => false
  | _ => true
  end.

(** ** Sample runs *)

Module Sample.

(** An outside world whose filesystem gives [tls] for the TLS files and
    whose other handlers do nothing. *)
Definition external (tls : TLSResult) : External :=
  {| core_TLSConfig := fun _ _ _ => tls;
     filepath_Join := fun dir name => dir +:+ "/" +:+ name;
     unicode_ToUpper := fun s => s;
     createBlockKeyPair := fun _ _ => mret tt;
     createAccount := fun _ _ => mret tt;
     updateAccountTags := fun _ _ => mret tt;
     createAsset := fun _ _ => mret tt;
     updateAssetTags := fun _ _ => mret tt |}.

Definition env (args : list string) (url : string) : Env :=
  {| os_Args := "corectl" :: args;
     home := "/home/core";
     coreURL := url;
     buildTag := "?";
     buildCommit := "?";
     buildDate := "?";
     range_order := fun names => names |}.

Definition plain : rpc_Client :=
  {| BaseURL := "http://localhost:1999"; Client := None |}.

Definition config : tls_Config :=
  TLSConfigOf "/home/core/tls.crt" "/home/core/tls.key" EmptyString.

Definition ok : Reply := {| reply_err := None; reply_log := EmptyString |}.

(** A reply with the given HTTP status and no error payload. *)
Definition status (code : Z) : Reply :=
  {| reply_err :=
       Some {| Root := RootStatus {| URL := "http://localhost:1999/info";
                                     StatusCode := code;
                                     ErrorData := None |};
               Error := "rpc status" |};
     reply_log := "rpc: retry" +:+ nl |}.

Definition refused : Reply :=
  {| reply_err := Some {| Root := RootOther; Error := "connection refused" |};
     reply_log := EmptyString |}.

Definition world (replies : list Reply) : World :=
  {| logbuf := EmptyString; script := replies; trace := [] |}.

End Sample.

(** ** Vocabulary of the statements *)

(** [s] is [lit] up to the case of ASCII letters. *)
Definition matches_nocase (s lit : string) : Prop :=
  map_bytes upper_byte s = map_bytes upper_byte lit.

(** The replies after which [wait] sleeps and probes again: an error whose
    root is no status error, or one whose status is in the 5xx class. *)
Definition retried (r : Reply) : bool :=
  match reply_err r with
  | None => false
  | Some err =>
      match Root err with
      | RootStatus statusErr => bool_decide (StatusCode statusErr ÷ 100 = 5)
      | RootOther => true
      end
  end.

(** One probe of [wait], and the probe-then-sleep rounds that a list of
    retried replies causes. *)
Definition probe (c : rpc_Client) : Event := ECall c "/info" ReqNil.

Definition rounds (c : rpc_Client) (n : nat) : list Event :=
  List.concat (repeat [probe c; ESleep (500 * time_Millisecond)] n).

Definition logged (rs : list Reply) : string :=
  foldr (fun r acc => reply_log r +:+ acc) EmptyString rs.

(** What [io.Copy(os.Stderr, &logbuf)] adds to the trace. *)
Definition flushed (buf : string) : list Event :=
  if decide (buf = EmptyString) then [] else [EWrite Stderr buf].

(** The lines of [help], for the names in the order [range] gave them. *)
Definition help_lines (names : list string) : list string :=
  ["usage: corectl [-version] [command] [arguments]" +:+ nl;
   nl +:+ "The commands are:" +:+ nl +:+ nl]
  ++ map (fun name => tab +:+ " " +:+ name +:+ nl) names
  ++ [nl +:+ "Flags:" +:+ nl;
      tab +:+ "-version   print version information" +:+ nl;
      nl].

(** A computation only appends events to the trace, all of them in [P],
    and what it returns is in [Q]. *)
Definition appends {A} (P : Event -> Prop) (Q : A -> Prop) (m : M A) : Prop :=
  forall w, exists evs,
    trace (m w).2 = trace w ++ evs /\ Forall P evs
    /\ forall a, (m w).1 = Returned a -> Q a.

Definition anything {A} : A -> Prop := fun _ => True.

(** An argument that [flag.Parse] takes for a flag: at least two bytes, the
    first a dash. *)
Definition flag_like (s : string) : bool := (2 <=? len s) && HasPrefix s "-".

(** The discipline of the log buffer, for a computation started in [w] that
    added the events [evs] and ended in [w']: nothing was written to either
    stream, and the buffer holds what it held followed by the log output of
    the answers consumed, none of it lost. *)
Definition quiet (w : World) (evs : list Event) (w' : World) : Prop :=
  written Stderr evs = EmptyString /\ written Stdout evs = EmptyString
  /\ exists used, script w = used ++ script w'
                  /\ logbuf w' = logbuf w +:+ logged used.

(** The buffer was drained: it is empty, and what it held followed by the
    log output of the answers consumed is on the error stream, in one
    piece. *)
Definition drained (w : World) (evs : list Event) (w' : World) : Prop :=
  logbuf w' = EmptyString
  /\ exists used pre post,
       script w = used ++ script w'
       /\ written Stderr evs = pre +:+ (logbuf w +:+ logged used) +:+ post.

(** A computation that keeps the discipline: when it returns (a value in
    [Q]) or waits, it was quiet; when the process exits, it is with status 2
    and the buffer drained, or with status 1 if [flags] allows it; it does
    not panic. *)
Definition orderly {A} (flags : Prop) (Q : A -> Prop) (m : M A) : Prop :=
  forall w, exists evs,
    trace (m w).2 = trace w ++ evs
    /\ match (m w).1 with
       | Returned a => Q a /\ quiet w evs (m w).2
       | Blocked | OutOfFuel => quiet w evs (m w).2
       | Exited n => (n = 1 /\ flags) \/ (n = 2 /\ drained w evs (m w).2)
       | Panicked => False
       end.

(** The handlers of this file among the registered commands. *)
Definition studied_commands : list string :=
  ["reset"; "grant"; "revoke"; "wait"; "build-transaction"].

(** ** Tactics *)

(** Unfold the primitives of the monad, to run a computation by [cbn]. *)
Ltac unfold_run :=
  unfold fatalln, copy_logbuf, Fprintln, Fprint, time_Sleep, emit, os_Exit,
    panic, of_option, at_index, mbind, M_bind, mret, M_ret.

(** * Properties *)

(** ** Strings *)

Section StringFacts.

Lemma append_nil_r (s : string) : s +:+ EmptyString = s.
Proof. induction s as [|c s IH]; [reflexivity|]. change (String c (s +:+ EmptyString) = String c s). by rewrite IH. Qed.

Lemma append_cons (c : ascii) (s t : string) : String c s +:+ t = String c (s +:+ t).
Proof. reflexivity. Qed.

Lemma append_assoc (s t u : string) : (s +:+ t) +:+ u = s +:+ t +:+ u.
Proof. induction s as [|c s IH]; [reflexivity|]. rewrite !append_cons. by rewrite IH. Qed.

Lemma length_append (s t : string) :
  String.length (s +:+ t) = (String.length s + String.length t)%nat.
Proof. induction s as [|c s IH]; [reflexivity|]. rewrite append_cons. simpl. by rewrite IH. Qed.

Lemma take_drop (n : nat) (s : string) : take n s +:+ drop n s = s.
Proof.
  revert s; induction n as [|n IH]; intros [|c s]; try reflexivity.
  simpl. rewrite append_cons. by rewrite IH.
Qed.

Lemma take_app_length (p s : string) : take (String.length p) (p +:+ s) = p.
Proof. induction p as [|c p IH]; [by destruct s|]. rewrite append_cons. simpl. by rewrite IH. Qed.

Lemma drop_app_length (p s : string) : drop (String.length p) (p +:+ s) = s.
Proof. induction p as [|c p IH]; [by destruct s|]. rewrite append_cons. simpl. by rewrite IH. Qed.

Lemma take_all (s : string) : take (String.length s) s = s.
Proof. induction s as [|c s IH]; [reflexivity|]. simpl. by rewrite IH. Qed.

Lemma drop_0 (s : string) : drop 0 s = s.
Proof. by destruct s. Qed.

Lemma take_0 (s : string) : take 0 s = EmptyString.
Proof. by destruct s. Qed.

Lemma length_drop (n : nat) (s : string) :
  String.length (drop n s) = (String.length s - n)%nat.
Proof. revert s; induction n as [|n IH]; intros [|c s]; simpl; auto. Qed.

Lemma take_length_le (n : nat) (s : string) :
  (String.length s <= n)%nat -> take n s = s.
Proof.
  revert s; induction n as [|n IH]; intros [|c s] H; simpl in *; try reflexivity; try lia.
  rewrite IH; [done|lia].
Qed.

(** A slice within bounds is the bytes between the two indices. *)
Lemma slice_to_nat (s : string) (k : nat) :
  (k <= String.length s)%nat -> slice_to s (Z.of_nat k) = Some (take k s).
Proof.
  intros H. unfold slice_to, slice, len.
  rewrite drop_0, Z.sub_0_r, Nat2Z.id.
  replace (0 <=? 0) with true by reflexivity.
  rewrite (proj2 (Z.leb_le _ _)) by lia. rewrite (proj2 (Z.leb_le _ _)) by lia.
  reflexivity.
Qed.

Lemma slice_from_nat (s : string) (k : nat) :
  (k <= String.length s)%nat -> slice_from s (Z.of_nat k) = Some (drop k s).
Proof.
  intros H. unfold slice_from, slice, len.
  rewrite Nat2Z.id.
  rewrite (proj2 (Z.leb_le 0 _)) by lia. rewrite (proj2 (Z.leb_le _ _)) by lia.
  rewrite (proj2 (Z.leb_le _ _)) by lia. simpl.
  rewrite take_length_le; [done|]. rewrite length_drop. lia.
Qed.

(** The first occurrence of a one-byte separator. *)
Lemma index_of_byte_cons (c x : ascii) (s : string) :
  index_of (String x s) (String c EmptyString)
  = if decide (c = x) then Some 0%nat else S <$> index_of s (String c EmptyString).
Proof.
  change (index_of (String x s) (String c EmptyString))
    with (if String.prefix (String c EmptyString) (String x s) then Some 0%nat
          else S <$> index_of s (String c EmptyString)).
  cbn [String.prefix]. destruct (ascii_dec c x) as [->|Hne].
  - rewrite decide_True by done. by destruct s.
  - rewrite decide_False by done. reflexivity.
Qed.

Lemma index_of_byte_nil (c : ascii) :
  index_of EmptyString (String c EmptyString) = None.
Proof. reflexivity. Qed.

Lemma index_of_byte_found (c : ascii) (p v : string) :
  index_of p (String c EmptyString) = None ->
  index_of (p +:+ String c v) (String c EmptyString) = Some (String.length p).
Proof.
  induction p as [|x p IH]; intros H.
  - change (EmptyString +:+ String c v) with (String c v).
    rewrite index_of_byte_cons, decide_True by done. reflexivity.
  - rewrite index_of_byte_cons in H. rewrite append_cons, index_of_byte_cons.
    destruct (decide (c = x)); [discriminate|].
    destruct (index_of p (String c EmptyString)) eqn:E; [discriminate|].
    rewrite IH by done. reflexivity.
Qed.

Lemma index_of_byte_split (c : ascii) (s : string) (i : nat) :
  index_of s (String c EmptyString) = Some i ->
  exists p v, s = p +:+ String c v /\ String.length p = i
              /\ index_of p (String c EmptyString) = None.
Proof.
  revert i; induction s as [|x s IH]; intros i H; [discriminate|].
  rewrite index_of_byte_cons in H. destruct (decide (c = x)) as [->|Hne].
  - inversion H; subst. by exists EmptyString, s.
  - destruct (index_of s (String c EmptyString)) as [j|] eqn:E; [|discriminate].
    inversion H; subst. destruct (IH j eq_refl) as (p & v & -> & Hl & Hn).
    exists (String x p), v. split; [reflexivity|]. split; [simpl; by rewrite Hl|].
    rewrite index_of_byte_cons, decide_False by done. by rewrite Hn.
Qed.

Lemma index_of_byte_present (c : ascii) (u v : string) :
  is_Some (index_of (u +:+ String c v) (String c EmptyString)).
Proof.
  induction u as [|x u IH].
  - change (EmptyString +:+ String c v) with (String c v).
    rewrite index_of_byte_cons, decide_True by done. by eexists.
  - rewrite append_cons, index_of_byte_cons. destruct (decide (c = x)); [by eexists|].
    destruct IH as [j ->]. by eexists.
Qed.

Lemma Index_absent (s sep : string) : Index s sep = -1 <-> index_of s sep = None.
Proof. unfold Index. destruct (index_of s sep); split; intros; try done; lia. Qed.

End StringFacts.

(** Lists and texts with their appends nested to the right. *)
Ltac norm_text := rewrite <- ?app_assoc, ?append_assoc.

(** ** splitAfter2 on the separator of guards *)

Section SplitFacts.

Lemma splitAfter2_found (p v : string) :
  index_of p "=" = None ->
  splitAfter2 (p +:+ "=" +:+ v) "=" = Some (p +:+ "=", v).
Proof.
  intros Hp. unfold splitAfter2, Index.
  change ("=" +:+ v) with (String "=" v).
  rewrite (index_of_byte_found "=" p v Hp).
  change (len "=") with 1.
  replace (Z.of_nat (String.length p) + 1) with (Z.of_nat (S (String.length p))) by lia.
  assert (Hl : String.length (p +:+ "=") = S (String.length p)).
  { rewrite length_append. simpl. lia. }
  assert (Hs : p +:+ String "=" v = (p +:+ "=") +:+ v).
  { rewrite append_assoc. reflexivity. }
  rewrite slice_to_nat, slice_from_nat.
  - rewrite Hs, <- Hl. rewrite take_app_length, drop_app_length. reflexivity.
  - rewrite length_append. simpl. lia.
  - rewrite length_append. simpl. lia.
Qed.

Lemma splitAfter2_absent (s : string) :
  index_of s "=" = None -> splitAfter2 s "=" = Some (EmptyString, s).
Proof.
  intros Hs. unfold splitAfter2, Index. rewrite Hs.
  change (-1 + len "=") with (Z.of_nat 0).
  rewrite slice_to_nat, slice_from_nat by lia.
  rewrite take_0, drop_0. reflexivity.
Qed.

(** With the separator [=] the two slices are always in range. *)
Lemma splitAfter2_total (s : string) :
  exists typ data, splitAfter2 s "=" = Some (typ, data) /\ typ +:+ data = s.
Proof.
  destruct (index_of s "=") as [i|] eqn:E.
  - destruct (index_of_byte_split _ _ _ E) as (p & v & -> & _ & Hp).
    exists (p +:+ "="), v. split; [by apply splitAfter2_found|].
    by rewrite append_assoc.
  - exists EmptyString, s. split; [by apply splitAfter2_absent|reflexivity].
Qed.

End SplitFacts.

(** C10. For every string [s] that contains the separator [=],
    [splitAfter2(s, "=")] returns [s] up to and including the first [=] and
    the remainder of [s]: the prefix is [p=] for a [p] without [=], the two
    parts concatenate to [s], and they are the slices of [s] at the index
    after the first [=].  The value may hold further [=] bytes. *)
Theorem splitAfter2_first_separator (s : string) :
  (exists u v, s = u +:+ "=" +:+ v) ->
  exists p b,
    splitAfter2 s "=" = Some (p +:+ "=", b)
    /\ (p +:+ "=") +:+ b = s
    /\ Index p "=" = -1
    /\ Index s "=" = len p
    /\ slice_to s (Index s "=" + 1) = Some (p +:+ "=")
    /\ slice_from s (Index s "=" + 1) = Some b.
Proof.
  intros (u & v & ->).
  destruct (index_of_byte_present "=" u v) as [i Hi].
  change (String "=" v) with ("=" +:+ v) in Hi.
  destruct (index_of_byte_split _ _ _ Hi) as (p & b & Hs & Hl & Hp).
  change (String "=" b) with ("=" +:+ b) in Hs.
  exists p, b. rewrite Hs.
  pose proof (splitAfter2_found p b Hp) as Hsplit.
  split; [exact Hsplit|]. split; [by rewrite append_assoc|].
  split; [by apply Index_absent|].
  assert (HI : Index (p +:+ "=" +:+ b) "=" = len p).
  { unfold Index. change ("=" +:+ b) with (String "=" b).
    by rewrite (index_of_byte_found "=" p b Hp). }
  split; [exact HI|].
  unfold splitAfter2 in Hsplit. change (len "=") with 1 in Hsplit.
  destruct (slice_to (p +:+ "=" +:+ b) (Index (p +:+ "=" +:+ b) "=" + 1)) as [a'|];
    [|discriminate].
  destruct (slice_from (p +:+ "=" +:+ b) (Index (p +:+ "=" +:+ b) "=" + 1)) as [b'|];
    [|discriminate].
  simpl in Hsplit. by inversion Hsplit.
Qed.

Lemma splitAfter2_first_separator_witness :
  exists p b,
    splitAfter2 "CN=a=b" "=" = Some (p +:+ "=", b)
    /\ (p +:+ "=") +:+ b = "CN=a=b"
    /\ Index p "=" = -1
    /\ Index "CN=a=b" "=" = len p
    /\ slice_to "CN=a=b" (Index "CN=a=b" "=" + 1) = Some (p +:+ "=")
    /\ slice_from "CN=a=b" (Index "CN=a=b" "=" + 1) = Some b.
Proof.
  apply (splitAfter2_first_separator "CN=a=b").
  exists "CN", "a=b". reflexivity.
Defined.

(** The value of [CN=a=b] is [a=b]. *)
Example splitAfter2_value_with_separator :
  splitAfter2 "CN=a=b" "=" = Some ("CN=", "a=b").
Proof. reflexivity. Qed.

(** ** Upper-casing *)

Section UpperFacts.

Context (X : External).

Lemma upper_byte_RuneSelf (c : ascii) :
  byte_lt_RuneSelf (upper_byte c) = byte_lt_RuneSelf c.
Proof. destruct c as [[] [] [] [] [] [] [] []]; reflexivity. Qed.

Lemma isASCII_upper (s : string) : isASCII (map_bytes upper_byte s) = isASCII s.
Proof.
  induction s as [|c s IH]; [reflexivity|].
  unfold isASCII in *. simpl. by rewrite upper_byte_RuneSelf, IH.
Qed.

Lemma index_of_upper (s : string) :
  index_of (map_bytes upper_byte s) "=" = None -> index_of s "=" = None.
Proof.
  induction s as [|c s IH]; [done|].
  cbn [map_bytes]. rewrite !index_of_byte_cons.
  destruct (decide ("="%char = upper_byte c)) as [E|E]; [discriminate|].
  destruct (decide ("="%char = c)) as [<-|E']; [by destruct E|].
  destruct (index_of (map_bytes upper_byte s) "="); [discriminate|].
  intros _. by rewrite IH.
Qed.

Lemma map_bytes_app (g : ascii -> ascii) (s t : string) :
  map_bytes g (s +:+ t) = map_bytes g s +:+ map_bytes g t.
Proof. induction s as [|c s IH]; [reflexivity|]. rewrite append_cons. simpl. by rewrite IH. Qed.

Lemma isASCII_app (s t : string) : isASCII (s +:+ t) = isASCII s && isASCII t.
Proof.
  unfold isASCII. induction s as [|c s IH]; [reflexivity|].
  rewrite append_cons. simpl. by rewrite IH, andb_assoc.
Qed.

(** A prefix that is [lit] up to case is upper-cased byte by byte, and
    has no [=] when [lit] has none. *)
Lemma ToUpper_guard (p lit : string) :
  matches_nocase p lit ->
  isASCII lit = true ->
  ToUpper X (p +:+ "=") = map_bytes upper_byte lit +:+ "=".
Proof.
  intros Hm Ha. unfold ToUpper.
  assert (Hp : isASCII p = true).
  { rewrite <- isASCII_upper, Hm, isASCII_upper. exact Ha. }
  rewrite isASCII_app, Hp. simpl. rewrite map_bytes_app, Hm. reflexivity.
Qed.

Lemma matches_no_separator (p lit : string) :
  matches_nocase p lit ->
  index_of (map_bytes upper_byte lit) "=" = None ->
  index_of p "=" = None.
Proof. intros Hm Hl. apply index_of_upper. by rewrite Hm. Qed.

End UpperFacts.

(** ** Running the handlers *)

Lemma flag_Parse_positional (u : M unit) (s : string) (rest : list string) :
  HasPrefix s "-" = false -> flag_Parse u (s :: rest) = mret (s :: rest).
Proof. intros H. unfold flag_Parse. rewrite H. by rewrite orb_true_r. Qed.

Section EditAuthzFacts.

Context (X : External).

#[local] Opaque authz_paths.

(** The [default] case of the switch. *)
Lemma editAuthz_unknown client policy tok action typ data w :
  HasPrefix policy "-" = false ->
  splitAfter2 tok "=" = Some (typ, data) ->
  ToUpper X typ <> "TOKEN=" -> ToUpper X typ <> "CN=" -> ToUpper X typ <> "OU=" ->
  editAuthz X client [policy; tok] action w
  = (Exited 2,
     {| logbuf := EmptyString; script := script w;
        trace := trace w
                 ++ [EWrite Stderr ("unknown guard type " +:+ typ +:+ nl)]
                 ++ flushed (logbuf w)
                 ++ [EWrite Stderr
                       ("usage: corectl " +:+ action +:+ " [policy] [guard]" +:+ nl)] |}).
Proof.
  intros Hp Hs H1 H2 H3. unfold editAuthz.
  rewrite flag_Parse_positional by done.
  unfold_run. cbn -[String.append ToUpper].
  rewrite Hs. cbn -[String.append ToUpper].
  rewrite !decide_False by done.
  unfold_run. cbn -[String.append ToUpper].
  unfold flushed. norm_text. reflexivity.
Qed.

(** The three cases that build a request. *)
Lemma editAuthz_known client policy tok action typ data w guard_type guard_data :
  HasPrefix policy "-" = false ->
  splitAfter2 tok "=" = Some (typ, data) ->
  (ToUpper X typ = "TOKEN=" /\ guard_type = "access_token"
     /\ guard_data = VMap [("id", VString data)])
  \/ (ToUpper X typ = "CN=" /\ guard_type = "x509"
     /\ guard_data = VMap [("subject", VMap [("CN", VString data)])])
  \/ (ToUpper X typ = "OU=" /\ guard_type = "x509"
     /\ guard_data = VMap [("subject", VMap [("OU", VString data)])]) ->
  editAuthz X client [policy; tok] action w
  = (err ← Call client (default EmptyString (authz_paths !! action))
             (ReqGrant {| Policy := policy; GuardType := guard_type;
                          GuardData := guard_data |});
     dieOnRPCError err []) w.
Proof.
  intros Hp Hs Hcase. unfold editAuthz.
  rewrite flag_Parse_positional by done.
  unfold_run. cbn -[String.append ToUpper].
  rewrite Hs. cbn -[String.append ToUpper].
  destruct Hcase as [(E & -> & ->)|[(E & -> & ->)|(E & -> & ->)]]; rewrite E.
  - reflexivity.
  - reflexivity.
  - reflexivity.
Qed.

End EditAuthzFacts.

(** ** Computations that only append to the trace *)

Section Appends.

Context (P : Event -> Prop).

Lemma appends_weaken {A} (Q Q' : A -> Prop) (m : M A) :
  (forall a, Q a -> Q' a) -> appends P Q m -> appends P Q' m.
Proof.
  intros HQ Hm w. destruct (Hm w) as (evs & E & HP & Hr).
  exists evs. repeat split; auto.
Qed.

Lemma appends_ret {A} (Q : A -> Prop) (a : A) : Q a -> appends P Q (mret a).
Proof.
  intros HQ w. exists []. split; [rewrite app_nil_r; reflexivity|]. split; [constructor|].
  intros a' E. injection E as <-. exact HQ.
Qed.

Lemma appends_bind {A B} (Q : A -> Prop) (R : B -> Prop) (m : M A) (k : A -> M B) :
  appends P Q m -> (forall a, Q a -> appends P R (k a)) -> appends P R (m ≫= k).
Proof.
  intros Hm Hk w. destruct (Hm w) as (evs & E & HP & Hr).
  unfold mbind, M_bind. destruct (m w) as [[a| | | |] w'] eqn:Emw; simpl in E;
    try (exists evs; repeat split; [done|done|intros ? [=]]).
  destruct (Hk a (Hr a eq_refl) w') as (evs' & E' & HP' & Hr').
  exists (evs ++ evs'). split; [by rewrite E', E, app_assoc|].
  split; [by apply Forall_app|done].
Qed.

Lemma appends_emit (ev : Event) : P ev -> appends P anything (emit ev).
Proof. intros H w. exists [ev]. split; [reflexivity|]. split; [by constructor|done]. Qed.

Lemma appends_os_Exit {A} (Q : A -> Prop) (n : Z) : appends P Q (os_Exit n).
Proof.
  intros w. exists []. split; [rewrite app_nil_r; reflexivity|]. split; [constructor|intros ? [=]].
Qed.

Lemma appends_panic {A} (Q : A -> Prop) : appends P Q panic.
Proof.
  intros w. exists []. split; [rewrite app_nil_r; reflexivity|]. split; [constructor|intros ? [=]].
Qed.

Lemma appends_copy_logbuf :
  (forall s, P (EWrite Stderr s)) -> appends P anything copy_logbuf.
Proof.
  intros H w. eexists. split; [reflexivity|]. split; [|done].
  destruct (decide _); by repeat constructor.
Qed.

Lemma appends_Call (c : rpc_Client) (path : string) (r : Request) :
  P (ECall c path r) -> appends P anything (Call c path r).
Proof.
  intros H w. exists [ECall c path r]. unfold Call.
  destruct (script w); (split; [reflexivity|]); (split; [by constructor|done]).
Qed.

Lemma appends_at_index (l : list string) (i : nat) : appends P anything (at_index l i).
Proof.
  unfold at_index. destruct (l !! i); [by apply appends_ret|apply appends_panic].
Qed.

Lemma appends_of_option {A} (o : option A) :
  appends P (fun a => o = Some a) (of_option o).
Proof. destruct o; [by apply appends_ret|apply appends_panic]. Qed.

(** The helpers that write and exit. *)
Context (Hw : forall f s, P (EWrite f s)).

Lemma appends_Fprintln f v : appends P anything (Fprintln f v).
Proof. apply appends_emit, Hw. Qed.

Lemma appends_fatalln {A} (Q : A -> Prop) v : appends P Q (fatalln v).
Proof.
  unfold fatalln.
  eapply appends_bind; [by apply appends_copy_logbuf|intros _ _].
  eapply appends_bind; [apply appends_Fprintln|intros _ _]. apply appends_os_Exit.
Qed.

Lemma appends_dieOnRPCError err prefixes :
  appends P anything (dieOnRPCError err prefixes).
Proof.
  destruct err as [err|]; [|by apply appends_ret]. unfold dieOnRPCError.
  eapply appends_bind; [by apply appends_copy_logbuf|intros _ _].
  eapply appends_bind with (Q := anything).
  { destruct (_ <? _)%nat; [apply appends_Fprintln|by apply appends_ret]. }
  intros _ _. eapply appends_bind with (Q := anything); [|intros _ _; apply appends_os_Exit].
  destruct (Root err) as [[? ? [d|]]|]; try apply appends_Fprintln.
  eapply appends_bind; [apply appends_Fprintln|intros _ _].
  destruct (decide _); [apply appends_Fprintln|by apply appends_ret].
Qed.

Lemma appends_flag_Parse usage args :
  appends P anything usage -> appends P anything (flag_Parse usage args).
Proof.
  intros Hu. unfold flag_Parse. destruct args as [|s rest]; [by apply appends_ret|].
  repeat match goal with
         | |- appends _ _ (if ?b then _ else _) => destruct b
         | |- appends _ _ (mret _) => by apply appends_ret
         | |- appends _ _ (_ ≫= _) => eapply appends_bind with (Q := anything); [|intros ? _]
         | |- appends _ _ (Fprintln _ _) => apply appends_Fprintln
         | |- appends _ _ usage => exact Hu
         end.
Qed.

End Appends.

Lemma editAuthz_appends X client args action :
  appends (fun ev => grant_call_ok ev = true) anything (editAuthz X client args action).
Proof.
  set (P := fun ev => grant_call_ok ev = true).
  assert (Hw : forall f s, P (EWrite f s)) by done.
  unfold editAuthz.
  eapply appends_bind with (Q := anything).
  { apply appends_flag_Parse; [done|].
    repeat (eapply appends_bind; [by apply appends_Fprintln|intros _ _]).
    apply appends_os_Exit. }
  intros args' _. eapply appends_bind with (Q := anything).
  { destruct (negb _); [by apply appends_fatalln|by apply appends_ret]. }
  intros _ _. eapply appends_bind; [apply appends_at_index|].
  intros args0 _. eapply appends_bind; [apply appends_at_index|].
  intros args1 _. eapply appends_bind; [apply appends_of_option|].
  intros [typ data] _.
  eapply appends_bind with (Q := fun r => guard_consistent r = true).
  { repeat (destruct (decide _); [by apply appends_ret|]).
    eapply appends_bind; [by apply appends_Fprintln|intros _ _].
    by apply appends_fatalln. }
  intros req Hreq. eapply appends_bind; [|intros err _; by apply appends_dieOnRPCError].
  apply appends_Call. exact Hreq.
Qed.

Lemma guard_consistent_spec (g : grantReq) :
  guard_consistent g = true ->
  (GuardType g = "access_token" <-> id_shape (GuardData g) = true)
  /\ (GuardType g = "x509" <-> subject_shape (GuardData g) = true)
  /\ (id_shape (GuardData g) = true \/ subject_shape (GuardData g) = true).
Proof.
  unfold guard_consistent. rewrite !andb_true_iff, orb_true_iff.
  intros [[H1 H2] H3]. apply Bool.eqb_prop in H1, H2.
  split; [by rewrite <- H1, bool_decide_eq_true|].
  split; [by rewrite <- H2, bool_decide_eq_true|exact H3].
Qed.

Lemma written_app (f : Stream) (evs evs' : list Event) :
  written f (evs ++ evs') = written f evs +:+ written f evs'.
Proof.
  induction evs as [|[[] s| |] evs IH]; simpl; try done;
    destruct f; rewrite ?IH, ?append_assoc; done.
Qed.

Lemma written_flushed (buf : string) : written Stderr (flushed buf) = buf.
Proof.
  unfold flushed. destruct (decide (buf = EmptyString)) as [->|]; [done|].
  simpl. apply append_nil_r.
Qed.

Lemma written_flushed_out (buf : string) : written Stdout (flushed buf) = EmptyString.
Proof. unfold flushed. by destruct (decide _). Qed.

Lemma calls_app (evs evs' : list Event) : calls (evs ++ evs') = calls evs ++ calls evs'.
Proof. induction evs as [|[] evs IH]; simpl; by rewrite ?IH. Qed.

Lemma calls_flushed (buf : string) : calls (flushed buf) = [].
Proof. unfold flushed. by destruct (decide _). Qed.

(** ** The guard encoding of grant and revoke *)

(** C1. For a guard [prefix=value] whose prefix is [token], [CN] or [OU]
    up to case, [editAuthz] sends the request of the matching shape:
    [access_token] with [{id: value}], [x509] with [{subject: {CN: value}}],
    [x509] with [{subject: {OU: value}}].  The value is the rest of the
    guard, unchanged, the empty string included. *)
Theorem editAuthz_guard_request X client policy prefix val action w :
  HasPrefix policy "-" = false ->
  let sends (guard_type : string) (guard_data : value) :=
    editAuthz X client [policy; prefix +:+ "=" +:+ val] action w
    = (err ← Call client (default EmptyString (authz_paths !! action))
               (ReqGrant {| Policy := policy; GuardType := guard_type;
                            GuardData := guard_data |});
       dieOnRPCError err []) w in
  (matches_nocase prefix "token" ->
   sends "access_token" (VMap [("id", VString val)]))
  /\ (matches_nocase prefix "CN" ->
      sends "x509" (VMap [("subject", VMap [("CN", VString val)])]))
  /\ (matches_nocase prefix "OU" ->
      sends "x509" (VMap [("subject", VMap [("OU", VString val)])])).
Proof.
  intros Hp sends. subst sends. cbv beta.
  repeat split; intros Hm;
    (eapply editAuthz_known;
     [exact Hp
     |apply splitAfter2_found; eapply matches_no_separator; [exact Hm|reflexivity]
     |rewrite (ToUpper_guard X _ _ Hm eq_refl)]).
  - left. done.
  - right; left. done.
  - right; right. done.
Qed.

Lemma editAuthz_guard_request_witness :
  let X := Sample.external ErrNoTLS in
  let w := Sample.world [Sample.ok] in
  let sent (guard : string) (r : grantReq) :=
    editAuthz X Sample.plain ["policy-a"; guard] "grant" w
    = (Returned tt,
       {| logbuf := EmptyString; script := [];
          trace := [ECall Sample.plain "/create-authorization-grant" (ReqGrant r)] |}) in
  sent "toKEN="
    {| Policy := "policy-a"; GuardType := "access_token";
       GuardData := VMap [("id", VString EmptyString)] |}
  /\ sent "cn=Org Admins"
       {| Policy := "policy-a"; GuardType := "x509";
          GuardData := VMap [("subject", VMap [("CN", VString "Org Admins")])] |}
  /\ sent "Ou=ops"
       {| Policy := "policy-a"; GuardType := "x509";
          GuardData := VMap [("subject", VMap [("OU", VString "ops")])] |}.
Proof.
  cbv zeta. split; [|split].
  - exact (eq_trans
             (proj1 (editAuthz_guard_request (Sample.external ErrNoTLS) Sample.plain
                       "policy-a" "toKEN" EmptyString "grant" (Sample.world [Sample.ok])
                       eq_refl) eq_refl)
             eq_refl).
  - exact (eq_trans
             (proj1 (proj2 (editAuthz_guard_request (Sample.external ErrNoTLS) Sample.plain
                              "policy-a" "cn" "Org Admins" "grant"
                              (Sample.world [Sample.ok]) eq_refl)) eq_refl)
             eq_refl).
  - exact (eq_trans
             (proj2 (proj2 (editAuthz_guard_request (Sample.external ErrNoTLS) Sample.plain
                              "policy-a" "Ou" "ops" "grant"
                              (Sample.world [Sample.ok]) eq_refl)) eq_refl)
             eq_refl).
Defined.

(** The output of the [default] case, for the type that [splitAfter2]
    returned. *)
Lemma editAuthz_unknown_report X client policy tok action typ data w :
  HasPrefix policy "-" = false ->
  splitAfter2 tok "=" = Some (typ, data) ->
  ToUpper X typ <> "TOKEN=" -> ToUpper X typ <> "CN=" -> ToUpper X typ <> "OU=" ->
  let usage := "usage: corectl " +:+ action +:+ " [policy] [guard]" in
  exists evs,
    editAuthz X client [policy; tok] action w
    = (Exited 2, {| logbuf := EmptyString; script := script w; trace := trace w ++ evs |})
    /\ evs = [EWrite Stderr ("unknown guard type " +:+ typ +:+ nl)]
             ++ flushed (logbuf w)
             ++ [EWrite Stderr (usage +:+ nl)]
    /\ written Stderr evs
       = "unknown guard type " +:+ typ +:+ nl +:+ logbuf w +:+ usage +:+ nl
    /\ written Stdout evs = EmptyString
    /\ calls evs = [].
Proof.
  intros Hp Hs H1 H2 H3 usage. eexists. split; [|split; [reflexivity|]].
  - rewrite (editAuthz_unknown X client policy tok action typ data w Hp Hs H1 H2 H3).
    subst usage. norm_text. reflexivity.
  - rewrite !written_app, written_flushed, !calls_app, calls_flushed,
      written_flushed_out.
    split; [|split; reflexivity].
    simpl. norm_text. rewrite append_nil_r. reflexivity.
Qed.

(** C5, as the code has it.  For a guard without [=], [splitAfter2] returns
    the empty string as the type prefix and the whole guard as the value.
    That is no error by itself (no panic); [editAuthz] then takes the
    unknown-guard-type path, with an empty type in its message, and the
    process exits with status 2. *)
Theorem splitAfter2_without_separator X client policy tok action w :
  Index tok "=" = -1 ->
  splitAfter2 tok "=" = Some (EmptyString, tok)
  /\ (HasPrefix policy "-" = false ->
      editAuthz X client [policy; tok] action w
      = (Exited 2,
         {| logbuf := EmptyString; script := script w;
            trace := trace w
                     ++ [EWrite Stderr ("unknown guard type " +:+ nl)]
                     ++ flushed (logbuf w)
                     ++ [EWrite Stderr
                           ("usage: corectl " +:+ action +:+ " [policy] [guard]" +:+ nl)] |})).
Proof.
  intros Hi. apply Index_absent in Hi.
  pose proof (splitAfter2_absent tok Hi) as Hs.
  split; [exact Hs|]. intros Hp.
  by rewrite (editAuthz_unknown X client policy tok action EmptyString tok w Hp Hs).
Qed.

Lemma splitAfter2_without_separator_witness :
  splitAfter2 "token" "=" = Some (EmptyString, "token")
  /\ editAuthz (Sample.external ErrNoTLS) Sample.plain ["policy-a"; "token"] "grant"
       (Sample.world [Sample.ok])
     = (Exited 2,
        {| logbuf := EmptyString; script := [Sample.ok];
           trace := [EWrite Stderr ("unknown guard type " +:+ nl);
                     EWrite Stderr ("usage: corectl grant [policy] [guard]" +:+ nl)] |}).
Proof.
  pose proof (splitAfter2_without_separator (Sample.external ErrNoTLS) Sample.plain
                "policy-a" "token" "grant" (Sample.world [Sample.ok]) eq_refl) as [H1 H2].
  split; [exact H1|exact (H2 eq_refl)].
Defined.

(** C5, as stated, fails: the guard [token] has no [=], and the split gives
    the empty prefix and the value [token], not the prefix [token] and an
    empty value. *)
Lemma splitAfter2_without_separator_counterexample :
  Index "token" "=" = -1
  /\ splitAfter2 "token" "=" = Some (EmptyString, "token")
  /\ splitAfter2 "token" "=" <> Some ("token", EmptyString)
  /\ ~ (forall tok, Index tok "=" = -1 -> splitAfter2 tok "=" = Some (tok, EmptyString)).
Proof.
  split; [reflexivity|]. split; [reflexivity|]. split; [discriminate|].
  intros H. specialize (H "token" eq_refl). discriminate H.
Qed.

(** C9. Every call [editAuthz] makes carries a grant request whose guard
    type and guard data agree: [access_token] exactly with the [{id}] shape
    and [x509] exactly with the [{subject: {CN or OU}}] shape. *)
Theorem editAuthz_requests_consistent X client args action w :
  exists evs,
    trace (editAuthz X client args action w).2 = trace w ++ evs
    /\ Forall (fun ev =>
         match ev with
         | ECall _ _ r =>
             exists g, r = ReqGrant g
               /\ (GuardType g = "access_token" <-> id_shape (GuardData g) = true)
               /\ (GuardType g = "x509" <-> subject_shape (GuardData g) = true)
               /\ (id_shape (GuardData g) = true \/ subject_shape (GuardData g) = true)
         | _ => True
         end) evs.
Proof.
  destruct (editAuthz_appends X client args action w) as (evs & E & HP & _).
  exists evs. split; [exact E|].
  eapply Forall_impl; [exact HP|].
  intros [f s|c path [|v|g]|d] Hev; simpl in Hev; try done.
  exists g. split; [reflexivity|]. by apply guard_consistent_spec.
Qed.

(** ** The transport bootstrap *)

Lemma HasPrefix_split (s p : string) :
  HasPrefix s p = true -> exists r, s = p +:+ r.
Proof.
  unfold HasPrefix. revert s; induction p as [|c p IH]; intros s H.
  - by exists s.
  - destruct s as [|x s]; [discriminate|]. cbn [String.prefix] in H.
    destruct (ascii_dec c x) as [->|]; [|discriminate].
    destruct (IH s H) as [r ->]. by exists r.
Qed.

Lemma HasPrefix_app (p r : string) : HasPrefix (p +:+ r) p = true.
Proof.
  unfold HasPrefix. induction p as [|c p IH]; [by destruct r|].
  rewrite append_cons. cbn [String.prefix]. by destruct (ascii_dec c c).
Qed.

Lemma mustRPCClient_loaded X e w config :
  core_TLSConfig X (filepath_Join X (home e) "tls.crt")
    (filepath_Join X (home e) "tls.key") EmptyString = TLSLoaded config ->
  mustRPCClient X e w
  = (Returned
       {| BaseURL := if HasPrefix (coreURL e) "http:"
                     then "https:" +:+ drop 5 (coreURL e) else coreURL e;
          Client := Some {| Transport :=
            {| DialContext := {| Timeout := 30 * time_Second;
                                 KeepAlive := 30 * time_Second;
                                 DualStack := true |};
               MaxIdleConns := 100;
               IdleConnTimeout := 90 * time_Second;
               TLSClientConfig := config;
               TLSHandshakeTimeout := 10 * time_Second;
               ExpectContinueTimeout := 1 * time_Second |} |} |}, w).
Proof.
  intros Ht. unfold mustRPCClient. rewrite Ht.
  destruct (HasPrefix (coreURL e) "http:") eqn:Hh; [|reflexivity].
  destruct (HasPrefix_split _ _ Hh) as [r Hr].
  assert (Hs : slice_from (coreURL e) 5 = Some (drop 5 (coreURL e))).
  { apply (slice_from_nat (coreURL e) 5). rewrite Hr, length_append. simpl. lia. }
  unfold_run. rewrite Hs. reflexivity.
Qed.

(** C2, as the code has it.  Without the TLS files the client is bound to
    the configured URL as it is, with no transport of its own and no error.
    With a valid pair the client gets the TLS transport, and its URL is the
    configured one with a leading [http:] replaced by [https:]; any other
    URL is kept as typed.  So the bound URL starts with [https:] whenever
    the configured one starts with [http:] or [https:]. *)
Theorem mustRPCClient_bound_url X e w :
  let tls := core_TLSConfig X (filepath_Join X (home e) "tls.crt")
               (filepath_Join X (home e) "tls.key") EmptyString in
  (tls = ErrNoTLS ->
   mustRPCClient X e w = (Returned {| BaseURL := coreURL e; Client := None |}, w))
  /\ (forall config, tls = TLSLoaded config ->
      exists c t,
        mustRPCClient X e w = (Returned c, w)
        /\ Client c = Some {| Transport := t |}
        /\ TLSClientConfig t = config
        /\ BaseURL c = (if HasPrefix (coreURL e) "http:"
                        then "https:" +:+ drop 5 (coreURL e) else coreURL e)
        /\ (HasPrefix (coreURL e) "http:" = true \/ HasPrefix (coreURL e) "https:" = true ->
            HasPrefix (BaseURL c) "https:" = true)).
Proof.
  intros tls. subst tls. split.
  - intros Ht. unfold mustRPCClient. by rewrite Ht.
  - intros config Ht. eexists _, _. split; [by apply mustRPCClient_loaded|].
    cbn [Client BaseURL TLSClientConfig]. repeat split.
    intros [Hh|Hh].
    + rewrite Hh. apply HasPrefix_app.
    + destruct (HasPrefix (coreURL e) "http:"); [apply HasPrefix_app|exact Hh].
Qed.

Lemma mustRPCClient_bound_url_witness :
  mustRPCClient (Sample.external ErrNoTLS) (Sample.env ["wait"] "http://localhost:1999")
    (Sample.world [])
  = (Returned {| BaseURL := "http://localhost:1999"; Client := None |}, Sample.world [])
  /\ exists c t,
       mustRPCClient (Sample.external (TLSLoaded Sample.config))
         (Sample.env ["wait"] "http://localhost:1999") (Sample.world [])
       = (Returned c, Sample.world [])
       /\ Client c = Some {| Transport := t |}
       /\ TLSClientConfig t = Sample.config
       /\ BaseURL c = "https://localhost:1999"
       /\ HasPrefix (BaseURL c) "https:" = true.
Proof.
  split.
  - exact (proj1 (mustRPCClient_bound_url (Sample.external ErrNoTLS)
                    (Sample.env ["wait"] "http://localhost:1999") (Sample.world []))
             eq_refl).
  - destruct (proj2 (mustRPCClient_bound_url (Sample.external (TLSLoaded Sample.config))
                       (Sample.env ["wait"] "http://localhost:1999") (Sample.world []))
                Sample.config eq_refl) as (c & t & H1 & H2 & H3 & H4 & H5).
    exists c, t. repeat split; [exact H1|exact H2|exact H3|exact H4|].
    apply H5. left. reflexivity.
Defined.

(** C2, as stated, fails: with a valid pair and the URL typed as
    [HTTP://localhost:1999], the test for the prefix [http:] is false and
    the client is bound to that URL, which has not the https scheme. *)
Lemma mustRPCClient_bound_url_counterexample :
  let X := Sample.external (TLSLoaded Sample.config) in
  let e := Sample.env ["wait"] "HTTP://localhost:1999" in
  core_TLSConfig X (filepath_Join X (home e) "tls.crt")
    (filepath_Join X (home e) "tls.key") EmptyString = TLSLoaded Sample.config
  /\ exists c,
       (mustRPCClient X e (Sample.world [])).1 = Returned c
       /\ BaseURL c = "HTTP://localhost:1999"
       /\ HasPrefix (BaseURL c) "https:" = false.
Proof.
  cbv zeta. split; [reflexivity|]. eexists. split; [reflexivity|]. split; reflexivity.
Qed.

(** ** The error reporter *)

(** C4. [dieOnRPCError] with a nil error returns and leaves the world as
    it was: nothing is written and the log buffer is not drained.  With an
    error it first copies the buffered log to the error stream (then the
    prefixes, when some are given), then reports: for a status error that
    carries error data the line [RPC error:] with the chain code and the
    message, and a [Detail:] line when the detail is not empty; for any
    other error the line [RPC error:] with the error itself.  The process
    exits with status 2 in every such case. *)
Theorem dieOnRPCError_reports :
  (forall prefixes w, dieOnRPCError None prefixes w = (Returned tt, w))
  /\ (forall err prefixes w, exists report,
        dieOnRPCError (Some err) prefixes w
        = (Exited 2,
           {| logbuf := EmptyString; script := script w;
              trace := trace w
                       ++ flushed (logbuf w)
                       ++ (if decide (prefixes = []) then []
                           else [EWrite Stderr (Join prefixes " " +:+ nl)])
                       ++ report |})
        /\ (forall s d,
              Root err = RootStatus s -> ErrorData s = Some d ->
              report
              = EWrite Stderr ("RPC error: " +:+ ChainCode d +:+ " " +:+ Message d +:+ nl)
                :: (if decide (Detail d = EmptyString) then []
                    else [EWrite Stderr ("Detail: " +:+ Detail d +:+ nl)]))
        /\ ((Root err = RootOther \/ exists s, Root err = RootStatus s /\ ErrorData s = None) ->
            report = [EWrite Stderr ("RPC error: " +:+ Error err +:+ nl)])).
Proof.
  split; [reflexivity|]. intros err prefixes w.
  unfold dieOnRPCError.
  destruct (Root err) as [[url code [d|]]|] eqn:Hroot.
  - eexists. split; [|split].
    2:{ intros s d' [= <-] [= <-]. reflexivity. }
    2:{ intros [[=]|(s & [= <-] & [=])]. }
    destruct prefixes as [|p ps]; destruct (decide (Detail d = EmptyString)) as [Hd|Hd];
      unfold_run; try set (line := Join (p :: ps) " "); cbn -[String.append];
      rewrite ?decide_True, ?decide_False by (try done; by intros ?);
      cbn -[String.append]; unfold flushed; norm_text; reflexivity.
  - eexists. split; [|split].
    2:{ intros s d' [= <-] [=]. }
    2:{ intros _. reflexivity. }
    destruct prefixes as [|p ps];
      unfold_run; try set (line := Join (p :: ps) " "); cbn -[String.append];
      unfold flushed; norm_text; reflexivity.
  - eexists. split; [|split].
    2:{ intros s d' [=]. }
    2:{ intros _. reflexivity. }
    destruct prefixes as [|p ps];
      unfold_run; try set (line := Join (p :: ps) " "); cbn -[String.append];
      unfold flushed; norm_text; reflexivity.
Qed.

(** A status error with error data, after some log output: the log comes
    first, then the structured report. *)
Example dieOnRPCError_structured :
  let err :=
    {| Root := RootStatus {| URL := "http://localhost:1999/reset";
                             StatusCode := 400;
                             ErrorData := Some {| ChainCode := "CH003";
                                                  Message := "Invalid request body";
                                                  Detail := "unknown field" |} |};
       Error := "rpc status 400" |} in
  let w := {| logbuf := "dial ok" +:+ nl; script := []; trace := [] |} in
  dieOnRPCError (Some err) [] w
  = (Exited 2,
     {| logbuf := EmptyString; script := [];
        trace := [EWrite Stderr ("dial ok" +:+ nl);
                  EWrite Stderr ("RPC error: CH003 Invalid request body" +:+ nl);
                  EWrite Stderr ("Detail: unknown field" +:+ nl)] |}).
Proof. reflexivity. Qed.

(** ** The liveness poller *)

Section WaitFacts.

Context (c : rpc_Client).

Lemma wait_unfold (fuel : nat) : wait fuel c [] = for_ever fuel (wait_body c).
Proof. reflexivity. Qed.

Lemma body_retried (r : Reply) (rest : list Reply) (w : World) :
  retried r = true -> script w = r :: rest ->
  (wait_body c) w = (Returned false,
            {| logbuf := logbuf w +:+ reply_log r; script := rest;
               trace := trace w ++ [probe c; ESleep (500 * time_Millisecond)] |}).
Proof.
  intros Hr Hs. unfold wait_body, Call. unfold_run. rewrite Hs.
  unfold retried in Hr. destruct (reply_err r) as [err|]; [|discriminate].
  destruct (Root err) as [s|].
  - apply bool_decide_eq_true in Hr. rewrite decide_False by (by intros ?).
    cbn. norm_text. reflexivity.
  - cbn. norm_text. reflexivity.
Qed.

Lemma body_answered (r : Reply) (rest : list Reply) (w : World) :
  retried r = false -> script w = r :: rest ->
  (wait_body c) w = (Returned true,
            {| logbuf := logbuf w +:+ reply_log r; script := rest;
               trace := trace w ++ [probe c] |}).
Proof.
  intros Hr Hs. unfold wait_body, Call. unfold_run. rewrite Hs.
  unfold retried in Hr. destruct (reply_err r) as [err|]; [|reflexivity].
  destruct (Root err) as [s|]; [|discriminate].
  apply bool_decide_eq_false in Hr. rewrite decide_True by done. reflexivity.
Qed.

Lemma body_blocked (w : World) :
  script w = [] ->
  (wait_body c) w = (Blocked,
            {| logbuf := logbuf w; script := []; trace := trace w ++ [probe c] |}).
Proof. intros Hs. unfold wait_body, Call. unfold_run. by rewrite Hs. Qed.

Lemma rounds_S (n : nat) :
  rounds c (S n) = [probe c; ESleep (500 * time_Millisecond)] ++ rounds c n.
Proof. reflexivity. Qed.

(** The retried replies at the head of the script each cost one round. *)
Lemma for_ever_rounds (pre : list Reply) :
  forall (fuel : nat) (rest : list Reply) (w : World),
    Forall (fun r => retried r = true) pre ->
    script w = pre ++ rest ->
    for_ever (length pre + fuel) (wait_body c) w
    = for_ever fuel (wait_body c)
        {| logbuf := logbuf w +:+ logged pre; script := rest;
           trace := trace w ++ rounds c (length pre) |}.
Proof.
  induction pre as [|r pre IH]; intros fuel rest w Hall Hs.
  - simpl in *. rewrite append_nil_r, app_nil_r, <- Hs. by destruct w.
  - inversion Hall as [|? ? Hr Hall']; subst.
    cbn [length Nat.add for_ever]. unfold mbind at 1, M_bind at 1.
    rewrite (body_retried r (pre ++ rest) w Hr Hs).
    erewrite IH; [|exact Hall'|reflexivity]. cbn [logbuf script trace].
    rewrite rounds_S. cbn [logged foldr]. norm_text. reflexivity.
Qed.

Lemma calls_rounds (n : nat) : length (calls (rounds c n ++ [probe c])) = S n.
Proof. induction n as [|n IH]; [reflexivity|]. rewrite rounds_S. simpl. by rewrite IH. Qed.

Lemma logged_app (l l' : list Reply) : logged (l ++ l') = logged l +:+ logged l'.
Proof. induction l as [|r l IH]; [reflexivity|]. simpl. by rewrite IH, append_assoc. Qed.

End WaitFacts.

Lemma status_class (code : Z) : code ÷ 100 = 5 <-> 500 <= code <= 599.
Proof. Z.to_euclidean_division_equations. lia. Qed.

Lemma retried_class (r : Reply) :
  retried r = true <->
  exists err, reply_err r = Some err
    /\ (Root err = RootOther
        \/ exists s, Root err = RootStatus s /\ 500 <= StatusCode s <= 599).
Proof.
  unfold retried. destruct (reply_err r) as [err|].
  - destruct (Root err) as [s|] eqn:E.
    + rewrite bool_decide_eq_true, status_class. split.
      * intros H. exists err. split; [done|]. right. by exists s.
      * intros (err' & [= <-] & [H|(s' & H & Hc)]); [congruence|].
        rewrite E in H. by injection H as <-.
    + split; [|done]. intros _. exists err. split; [done|by left].
  - split; [done|]. by intros (err & [=] & _).
Qed.

Lemma wait_answered (c : rpc_Client) fuel pre r rest w :
  Forall (fun r => retried r = true) pre -> retried r = false ->
  script w = pre ++ r :: rest -> (length pre < fuel)%nat ->
  wait fuel c [] w
  = (Returned tt,
     {| logbuf := logbuf w +:+ logged (pre ++ [r]); script := rest;
        trace := trace w ++ rounds c (length pre) ++ [probe c] |}).
Proof.
  intros Hall Hr Hs Hlt.
  rewrite wait_unfold.
  replace fuel with (length pre + S (fuel - length pre - 1))%nat by lia.
  rewrite (for_ever_rounds c pre _ (r :: rest) w Hall Hs).
  cbn [for_ever]. unfold mbind at 1, M_bind at 1.
  erewrite body_answered; [|exact Hr|reflexivity]. cbn [logbuf script trace].
  rewrite logged_app. cbn [logged foldr]. rewrite append_nil_r. norm_text. reflexivity.
Qed.

Lemma wait_blocked (c : rpc_Client) fuel pre w :
  Forall (fun r => retried r = true) pre ->
  script w = pre -> (length pre < fuel)%nat ->
  wait fuel c [] w
  = (Blocked,
     {| logbuf := logbuf w +:+ logged pre; script := [];
        trace := trace w ++ rounds c (length pre) ++ [probe c] |}).
Proof.
  intros Hall Hs Hlt.
  rewrite wait_unfold.
  replace fuel with (length pre + S (fuel - length pre - 1))%nat by lia.
  rewrite (for_ever_rounds c pre _ [] w Hall); [|by rewrite app_nil_r].
  cbn [for_ever]. unfold mbind at 1, M_bind at 1.
  erewrite body_blocked; [|reflexivity]. cbn [logbuf script trace].
  norm_text. reflexivity.
Qed.

(** Any script either answers [wait] or leaves it waiting: with more fuel
    than replies the model never runs out. *)
Lemma wait_total (c : rpc_Client) (fuel : nat) (w : World) :
  (length (script w) < fuel)%nat ->
  exists w', wait fuel c [] w = (Returned tt, w') \/ wait fuel c [] w = (Blocked, w').
Proof.
  intros Hlt.
  assert (Hsplit : forall l : list Reply,
             (exists pre r rest, l = pre ++ r :: rest
                /\ Forall (fun r => retried r = true) pre /\ retried r = false)
             \/ Forall (fun r => retried r = true) l).
  { induction l as [|r l IH]; [right; constructor|].
    destruct (retried r) eqn:Hr.
    - destruct IH as [(pre & r' & rest & -> & Hall & Hr')|Hall].
      + left. exists (r :: pre), r', rest. repeat split; [by constructor|done].
      + right. by constructor.
    - left. exists [], r, l. repeat split; [constructor|done]. }
  destruct (Hsplit (script w)) as [(pre & r & rest & Hs & Hall & Hr)|Hall].
  - eexists. left. apply (wait_answered c fuel pre r rest w Hall Hr Hs).
    rewrite Hs, length_app in Hlt. simpl in Hlt. lia.
  - eexists. right. by apply (wait_blocked c fuel (script w) w Hall).
Qed.

(** C3. [wait] probes [/info] until a reply is not retried.  A reply is
    retried exactly when the call fails and the root of the error is either
    no status error or a status error of the 5xx class; a success or a
    status error of another class ends the loop.  After each retried reply
    the loop sleeps 500 ms and probes again, however many there are: with
    [n] retried replies followed by another one the run is [n] rounds of
    probe and sleep and a last probe, [n + 1] probes in all, and with
    nothing after them the loop is still waiting on probe [n + 1]. *)
Theorem wait_polls_until_answered (c : rpc_Client) :
  (forall r,
     retried r = true <->
     exists err, reply_err r = Some err
       /\ (Root err = RootOther
           \/ exists s, Root err = RootStatus s /\ 500 <= StatusCode s <= 599))
  /\ (forall fuel pre r rest w,
        Forall (fun r => retried r = true) pre -> retried r = false ->
        script w = pre ++ r :: rest -> (length pre < fuel)%nat ->
        wait fuel c [] w
        = (Returned tt,
           {| logbuf := logbuf w +:+ logged (pre ++ [r]); script := rest;
              trace := trace w ++ rounds c (length pre) ++ [probe c] |}))
  /\ (forall fuel pre w,
        Forall (fun r => retried r = true) pre ->
        script w = pre -> (length pre < fuel)%nat ->
        wait fuel c [] w
        = (Blocked,
           {| logbuf := logbuf w +:+ logged pre; script := [];
              trace := trace w ++ rounds c (length pre) ++ [probe c] |}))
  /\ (forall n,
        rounds c (S n) = [probe c; ESleep 500000000] ++ rounds c n
        /\ length (calls (rounds c n ++ [probe c])) = S n).
Proof.
  split; [exact retried_class|]. split; [exact (wait_answered c)|].
  split; [exact (wait_blocked c)|].
  intros n. split; [reflexivity|apply calls_rounds].
Qed.

Lemma wait_polls_until_answered_witness :
  wait 3 Sample.plain [] (Sample.world [Sample.status 503; Sample.status 503; Sample.ok])
  = (Returned tt,
     {| logbuf := "rpc: retry" +:+ nl +:+ "rpc: retry" +:+ nl;
        script := [];
        trace := [probe Sample.plain; ESleep 500000000;
                  probe Sample.plain; ESleep 500000000;
                  probe Sample.plain] |}).
Proof.
  apply (proj1 (proj2 (wait_polls_until_answered Sample.plain))
           3%nat [Sample.status 503; Sample.status 503] Sample.ok []
           (Sample.world [Sample.status 503; Sample.status 503; Sample.ok]));
    [repeat constructor | reflexivity | reflexivity | apply le_n].
Defined.

(** ** The dispatcher *)

Lemma world_eta (w : World) :
  {| logbuf := logbuf w; script := script w; trace := trace w |} = w.
Proof. by destruct w. Qed.

Lemma for_range_names (f : Stream) (names : list string) (w : World) :
  for_range names (fun name => Fprintln f [tab; name]) w
  = (Returned tt,
     {| logbuf := logbuf w; script := script w;
        trace := trace w ++ map (fun name => EWrite f (tab +:+ " " +:+ name +:+ nl)) names |}).
Proof.
  revert w; induction names as [|name names IH]; intros w.
  - simpl. by rewrite app_nil_r, world_eta.
  - cbn [for_range]. unfold mbind at 1, M_bind at 1. unfold Fprintln at 1, emit.
    rewrite IH. cbn [logbuf script trace map]. norm_text. reflexivity.
Qed.

Lemma help_with_run (names : list string) (f : Stream) (w : World) :
  help_with names f w
  = (Returned tt,
     {| logbuf := logbuf w; script := script w;
        trace := trace w ++ map (EWrite f) (help_lines names) |}).
Proof.
  unfold help_with. unfold mbind, M_bind. unfold Fprintln at 1, Fprint at 1, emit.
  rewrite for_range_names. unfold_run. cbn [logbuf script trace].
  unfold help_lines. rewrite !map_app, map_map. cbn [map]. norm_text. reflexivity.
Qed.

Section DispatchFacts.

Context (X : External).

Lemma commands_registered (fuel : nat) (name : string) :
  is_Some (commands X fuel !! name) <->
  name ∈ ["create-block-keypair"; "reset"; "grant"; "revoke"; "wait";
          "create-account"; "update-account-tags"; "create-asset";
          "update-asset-tags"; "build-transaction"].
Proof.
  rewrite <- elem_of_dom. unfold commands. rewrite !dom_insert_L, dom_singleton_L.
  rewrite !elem_of_union, !elem_of_singleton, !elem_of_cons, elem_of_nil.
  tauto.
Qed.

Lemma version_not_registered (fuel : nat) : commands X fuel !! "-version" = None.
Proof.
  reflexivity.
Qed.

#[local] Opaque commands.

Lemma main_help e fuel w :
  (length (os_Args e) < 2)%nat ->
  main X e fuel w
  = (Exited 0,
     {| logbuf := logbuf w; script := script w;
        trace := trace w
                 ++ map (EWrite Stdout)
                      (help_lines (range_order e (map fst (map_to_list (commands X fuel))))) |}).
Proof.
  intros Hlen. unfold main.
  replace (2 <=? length (os_Args e))%nat with false by (symmetry; apply Nat.leb_gt; lia).
  replace (length (os_Args e) <? 2)%nat with true by (symmetry; apply Nat.ltb_lt; lia).
  cbn [andb]. unfold help. unfold mbind at 1, M_bind at 1. unfold mbind at 1, M_bind at 1.
  rewrite help_with_run. reflexivity.
Qed.

Lemma main_not_version e fuel name w :
  os_Args e !! 1%nat = Some name -> name <> "-version" ->
  main X e fuel w
  = (cmd ← match commands X fuel !! name with
           | None =>
               Fprintln Stderr ["unknown command:"; name];;
               help X e fuel Stderr;;
               os_Exit 1
           | Some cmd => mret cmd
           end;
     client ← mustRPCClient X e;
     f cmd client (skipn 2 (os_Args e))) w.
Proof.
  intros Hname Hv. unfold main.
  assert (Hlen : (2 <= length (os_Args e))%nat).
  { apply lookup_lt_Some in Hname. lia. }
  rewrite Hname.
  rewrite bool_decide_eq_false_2 by (intros [= ?]; done).
  rewrite andb_false_r.
  replace (length (os_Args e) <? 2)%nat with false by (symmetry; apply Nat.ltb_ge; lia).
  unfold at_index. rewrite Hname. reflexivity.
Qed.

Lemma main_unknown e fuel name w :
  os_Args e !! 1%nat = Some name -> name <> "-version" ->
  commands X fuel !! name = None ->
  main X e fuel w
  = (Exited 1,
     {| logbuf := logbuf w; script := script w;
        trace := trace w
                 ++ EWrite Stderr ("unknown command: " +:+ name +:+ nl)
                    :: map (EWrite Stderr)
                         (help_lines (range_order e (map fst (map_to_list (commands X fuel))))) |}).
Proof.
  intros Hname Hv Hc. rewrite (main_not_version e fuel name w Hname Hv), Hc.
  unfold help. unfold mbind, M_bind. unfold Fprintln at 1, emit.
  rewrite help_with_run. unfold_run. cbn [logbuf script trace]. norm_text. reflexivity.
Qed.

Lemma main_known e fuel name cmd w :
  os_Args e !! 1%nat = Some name ->
  commands X fuel !! name = Some cmd ->
  main X e fuel w
  = (client ← mustRPCClient X e; f cmd client (skipn 2 (os_Args e))) w.
Proof.
  intros Hname Hc.
  assert (Hv : name <> "-version").
  { intros ->. by rewrite version_not_registered in Hc. }
  rewrite (main_not_version e fuel name w Hname Hv), Hc. reflexivity.
Qed.

End DispatchFacts.

(** C7. With no argument after the program name, [main] writes the usage
    text to standard output and exits with status 0.  With a first argument
    that names no registered command (the flag [-version] is handled before
    the dispatch), it writes the line [unknown command:] with that name and
    the usage text to the error stream and exits with status 1.  With the
    name of a registered command, it builds the client with [mustRPCClient]
    and runs the handler on it and on the arguments after the name.  The
    registered names are the ten of the [commands] map. *)
Theorem main_dispatch X e fuel w :
  let names := range_order e (map fst (map_to_list (commands X fuel))) in
  ((length (os_Args e) < 2)%nat ->
   main X e fuel w
   = (Exited 0,
      {| logbuf := logbuf w; script := script w;
         trace := trace w ++ map (EWrite Stdout) (help_lines names) |}))
  /\ (forall name,
        os_Args e !! 1%nat = Some name -> name <> "-version" ->
        commands X fuel !! name = None ->
        main X e fuel w
        = (Exited 1,
           {| logbuf := logbuf w; script := script w;
              trace := trace w
                       ++ EWrite Stderr ("unknown command: " +:+ name +:+ nl)
                          :: map (EWrite Stderr) (help_lines names) |}))
  /\ (forall name cmd,
        os_Args e !! 1%nat = Some name ->
        commands X fuel !! name = Some cmd ->
        main X e fuel w
        = (client ← mustRPCClient X e; f cmd client (skipn 2 (os_Args e))) w)
  /\ (forall name,
        is_Some (commands X fuel !! name) <->
        name ∈ ["create-block-keypair"; "reset"; "grant"; "revoke"; "wait";
                "create-account"; "update-account-tags"; "create-asset";
                "update-asset-tags"; "build-transaction"]).
Proof.
  intros names. subst names.
  split; [apply main_help|]. split; [intros name; apply main_unknown|].
  split; [intros name cmd; apply main_known|apply commands_registered].
Qed.

Lemma main_dispatch_witness :
  let X := Sample.external ErrNoTLS in
  let url := "http://localhost:1999" in
  let names := map fst (map_to_list (commands X 1)) in
  main X (Sample.env [] url) 1 (Sample.world [])
  = (Exited 0,
     {| logbuf := EmptyString; script := [];
        trace := [] ++ map (EWrite Stdout) (help_lines names) |})
  /\ main X (Sample.env ["frobnicate"] url) 1 (Sample.world [])
     = (Exited 1,
        {| logbuf := EmptyString; script := [];
           trace := [] ++ EWrite Stderr ("unknown command: " +:+ "frobnicate" +:+ nl)
                          :: map (EWrite Stderr) (help_lines names) |})
  /\ main X (Sample.env ["grant"; "policy-a"; "CN=Org Admins"] url) 1 (Sample.world [Sample.ok])
     = (client ← mustRPCClient X (Sample.env ["grant"; "policy-a"; "CN=Org Admins"] url);
        grant X client ["policy-a"; "CN=Org Admins"]) (Sample.world [Sample.ok]).
Proof.
  cbv zeta. split; [|split].
  - apply (proj1 (main_dispatch (Sample.external ErrNoTLS)
                    (Sample.env [] "http://localhost:1999") 1 (Sample.world []))).
    apply le_n.
  - apply (proj1 (proj2 (main_dispatch (Sample.external ErrNoTLS)
                           (Sample.env ["frobnicate"] "http://localhost:1999") 1
                           (Sample.world []))) "frobnicate");
      [reflexivity | discriminate | reflexivity].
  - apply (proj1 (proj2 (proj2 (main_dispatch (Sample.external ErrNoTLS)
                           (Sample.env ["grant"; "policy-a"; "CN=Org Admins"]
                              "http://localhost:1999") 1
                           (Sample.world [Sample.ok]))))
             "grant" {| f := grant (Sample.external ErrNoTLS) |});
      reflexivity.
Defined.

(** A whole run: [corectl revoke policy-a token=abc123] against a core
    that answers with a 404, on a machine with TLS files and the default
    URL. *)
Example main_revoke_run :
  let X := Sample.external (TLSLoaded Sample.config) in
  let e := Sample.env ["revoke"; "policy-a"; "token=abc123"] "http://localhost:1999" in
  let out := main X e 1 (Sample.world [Sample.status 404]) in
  out.1 = Exited 2
  /\ (exists c t,
        BaseURL c = "https://localhost:1999" /\ Client c = Some {| Transport := t |}
        /\ calls (trace out.2)
           = [(c, "/delete-authorization-grant",
               ReqGrant {| Policy := "policy-a"; GuardType := "access_token";
                           GuardData := VMap [("id", VString "abc123")] |})])
  /\ written Stderr (trace out.2)
     = "rpc: retry" +:+ nl +:+ "RPC error: rpc status" +:+ nl
  /\ written Stdout (trace out.2) = EmptyString.
Proof.
  cbv zeta. split; [reflexivity|]. split; [|split; reflexivity].
  eexists _, _. refine (conj _ (conj _ _)); cycle 2; reflexivity.
Qed.

(** * Further properties *)

(** ** Runs that end in an exit *)

Lemma bind_exited {A B} (m : M A) (k : A -> M B) (w w' : World) (n : Z) :
  m w = (Exited n, w') -> (m ≫= k) w = (Exited n, w').
Proof. intros H. unfold mbind, M_bind. by rewrite H. Qed.

Lemma fatalln_run {A} (v : list string) (w : World) :
  fatalln (A := A) v w
  = (Exited 2,
     {| logbuf := EmptyString; script := script w;
        trace := trace w ++ flushed (logbuf w) ++ [EWrite Stderr (Join v " " +:+ nl)] |}).
Proof. unfold_run. cbn [logbuf script trace]. unfold flushed. norm_text. reflexivity. Qed.

(** What [dieOnRPCError] does with an error: the flush, then lines on the
    error stream, then the exit. *)
Lemma dieOnRPCError_run (err : error) (prefixes : list string) (w : World) :
  exists report,
    dieOnRPCError (Some err) prefixes w
    = (Exited 2,
       {| logbuf := EmptyString; script := script w;
          trace := trace w ++ flushed (logbuf w) ++ report |})
    /\ calls report = [] /\ written Stdout report = EmptyString.
Proof.
  unfold dieOnRPCError.
  destruct (Root err) as [[url code [d|]]|] eqn:Hroot.
  - destruct prefixes as [|p ps]; destruct (decide (Detail d = EmptyString)) as [Hd|Hd];
      (eexists; split;
       [unfold_run; try set (line := Join (p :: ps) " "); cbn -[String.append];
        rewrite ?decide_True, ?decide_False by (try done; by intros ?);
        cbn -[String.append]; unfold flushed; rewrite <- !app_assoc; reflexivity
       |split; reflexivity]).
  - destruct prefixes as [|p ps];
      (eexists; split;
       [unfold_run; try set (line := Join (p :: ps) " "); cbn -[String.append];
        unfold flushed; rewrite <- !app_assoc; reflexivity
       |split; reflexivity]).
  - destruct prefixes as [|p ps];
      (eexists; split;
       [unfold_run; try set (line := Join (p :: ps) " "); cbn -[String.append];
        unfold flushed; rewrite <- !app_assoc; reflexivity
       |split; reflexivity]).
Qed.

(** ** splitAfter2 on any separator *)

Section SplitAnyFacts.

Lemma index_of_unfold (s sep : string) :
  index_of s sep
  = if String.prefix sep s then Some 0%nat
    else match s with
         | EmptyString => None
         | String _ s' => S <$> index_of s' sep
         end.
Proof. by destruct s. Qed.

Lemma index_of_split (s sep : string) (i : nat) :
  index_of s sep = Some i ->
  exists p b, s = p +:+ sep +:+ b /\ String.length p = i.
Proof.
  revert i; induction s as [|x s IH]; intros i; rewrite index_of_unfold.
  - destruct (String.prefix sep EmptyString) eqn:E; [|discriminate].
    intros [= <-]. destruct (HasPrefix_split _ _ E) as [r Hr].
    exists EmptyString, r. by split.
  - destruct (String.prefix sep (String x s)) eqn:E.
    + intros [= <-]. destruct (HasPrefix_split _ _ E) as [r Hr].
      exists EmptyString, r. by split.
    + destruct (index_of s sep) as [j|] eqn:Ej; [|discriminate].
      intros [= <-]. destruct (IH j eq_refl) as (p & b & -> & Hl).
      exists (String x p), b. split; [reflexivity|]. simpl. by rewrite Hl.
Qed.

Lemma index_of_first (u sep v : string) :
  exists i, index_of (u +:+ sep +:+ v) sep = Some i /\ (i <= String.length u)%nat.
Proof.
  induction u as [|x u IH].
  - exists 0%nat. split; [|done]. rewrite index_of_unfold.
    change (EmptyString +:+ sep +:+ v) with (sep +:+ v).
    pose proof (HasPrefix_app sep v) as H. unfold HasPrefix in H. by rewrite H.
  - destruct IH as (i & Hi & Hle). rewrite append_cons, index_of_unfold.
    destruct (String.prefix sep (String x (u +:+ sep +:+ v))).
    + exists 0%nat. split; [done|lia].
    + exists (S i). rewrite Hi. split; [done|simpl; lia].
Qed.

Lemma splitAfter2_at (p sep b : string) :
  index_of (p +:+ sep +:+ b) sep = Some (String.length p) ->
  splitAfter2 (p +:+ sep +:+ b) sep = Some (p +:+ sep, b).
Proof.
  intros Hi. unfold splitAfter2, Index. rewrite Hi. unfold len.
  replace (Z.of_nat (String.length p) + Z.of_nat (String.length sep))
    with (Z.of_nat (String.length (p +:+ sep))) by (rewrite length_append; lia).
  rewrite <- append_assoc.
  rewrite slice_to_nat, slice_from_nat by (rewrite (length_append (p +:+ sep)); lia).
  by rewrite take_app_length, drop_app_length.
Qed.

Lemma slice_to_Some (s : string) (k : Z) (a : string) :
  slice_to s k = Some a ->
  exists n, k = Z.of_nat n /\ (n <= String.length s)%nat /\ a = take n s.
Proof.
  unfold slice_to, slice, len. destruct (0 <=? 0); [|discriminate]. cbn [andb].
  destruct (0 <=? k) eqn:E1; [|discriminate].
  destruct (k <=? Z.of_nat (String.length s)) eqn:E2; [|discriminate].
  intros [= <-]. apply Z.leb_le in E1, E2. exists (Z.to_nat k).
  split; [lia|]. split; [lia|].
  by rewrite Z.sub_0_r.
Qed.

Lemma slice_from_Some (s : string) (k : Z) (b : string) :
  slice_from s k = Some b ->
  exists n, k = Z.of_nat n /\ (n <= String.length s)%nat /\ b = drop n s.
Proof.
  unfold slice_from, slice, len.
  destruct (0 <=? k) eqn:E1; [|discriminate].
  destruct (k <=? Z.of_nat (String.length s)) eqn:E2; [|discriminate].
  rewrite Z.leb_refl. intros [= <-]. apply Z.leb_le in E1, E2. exists (Z.to_nat k).
  split; [lia|]. split; [lia|].
  apply take_length_le. rewrite length_drop. lia.
Qed.

Lemma slice_to_out (s : string) (k : Z) :
  Z.of_nat (String.length s) < k -> slice_to s k = None.
Proof.
  intros H. unfold slice_to, slice, len.
  destruct (0 <=? k); [|done]. cbn [andb].
  by rewrite (proj2 (Z.leb_gt _ _) H).
Qed.

End SplitAnyFacts.

(** X1. Whatever the separator, when [splitAfter2] returns, its two
    results concatenate to the string it was given: it only cuts. *)
Theorem splitAfter2_concat (s sep a b : string) :
  splitAfter2 s sep = Some (a, b) -> a +:+ b = s.
Proof.
  unfold splitAfter2. intros H.
  destruct (slice_to s (Index s sep + len sep)) as [a'|] eqn:Ea; [|discriminate].
  destruct (slice_from s (Index s sep + len sep)) as [b'|] eqn:Eb; [|discriminate].
  simpl in H. injection H as <- <-.
  destruct (slice_to_Some _ _ _ Ea) as (n & Hn & _ & ->).
  destruct (slice_from_Some _ _ _ Eb) as (m & Hm & _ & ->).
  assert (n = m) as -> by lia. apply take_drop.
Qed.

Lemma splitAfter2_concat_witness : "tok" +:+ "en=a==b" = "token=a==b".
Proof. exact (splitAfter2_concat "token=a==b" "k" "tok" "en=a==b" eq_refl). Defined.

(** X2. For any separator that occurs in [s], also one of several bytes or
    the empty one, [splitAfter2] cuts right after the first occurrence: the
    first result is what precedes it followed by the separator, the second
    is the rest, and no occurrence starts earlier. *)
Theorem splitAfter2_any_separator (s sep : string) :
  (exists u v, s = u +:+ sep +:+ v) ->
  exists p b,
    splitAfter2 s sep = Some (p +:+ sep, b)
    /\ s = p +:+ sep +:+ b
    /\ Index s sep = len p
    /\ forall u v, s = u +:+ sep +:+ v -> len p <= len u.
Proof.
  intros (u0 & v0 & ->).
  destruct (index_of_first u0 sep v0) as (i & Hi & _).
  destruct (index_of_split _ _ _ Hi) as (p & b & Hs & Hl).
  exists p, b. rewrite Hs in Hi |- *. subst i.
  split; [by apply splitAfter2_at|]. split; [reflexivity|].
  split; [unfold Index; by rewrite Hi|].
  intros u v Huv. destruct (index_of_first u sep v) as (j & Hj & Hle).
  rewrite <- Huv, Hi in Hj. injection Hj as <-. unfold len. lia.
Qed.

Lemma splitAfter2_any_separator_witness :
  exists p b,
    splitAfter2 "a::b::c" "::" = Some (p +:+ "::", b)
    /\ "a::b::c" = p +:+ "::" +:+ b
    /\ Index "a::b::c" "::" = len p
    /\ forall u v, "a::b::c" = u +:+ "::" +:+ v -> len p <= len u.
Proof.
  apply (splitAfter2_any_separator "a::b::c" "::"). exists "a", "b::c". reflexivity.
Defined.

(** X3. When the separator does not occur in [s] it has [n >= 1] bytes,
    and [splitAfter2] cuts [s] after its first [n - 1] bytes: the results
    are the empty string and [s] for a separator of one byte only.  When
    [s] is shorter than [n - 1] bytes the slice expression panics. *)
Theorem splitAfter2_separator_absent (s sep : string) :
  Index s sep = -1 ->
  (1 <= String.length sep)%nat
  /\ splitAfter2 s sep
     = if (String.length sep - 1 <=? String.length s)%nat
       then Some (take (String.length sep - 1) s, drop (String.length sep - 1) s)
       else None.
Proof.
  intros Hi. assert (Hsep : (1 <= String.length sep)%nat).
  { destruct sep; [|simpl; lia]. apply Index_absent in Hi.
    rewrite index_of_unfold in Hi. by destruct s. }
  split; [exact Hsep|]. unfold splitAfter2. rewrite Hi. unfold len.
  replace (-1 + Z.of_nat (String.length sep))
    with (Z.of_nat (String.length sep - 1)) by lia.
  destruct (String.length sep - 1 <=? String.length s)%nat eqn:E.
  - apply Nat.leb_le in E. by rewrite slice_to_nat, slice_from_nat.
  - apply Nat.leb_gt in E. rewrite slice_to_out by lia. reflexivity.
Qed.

Lemma splitAfter2_separator_absent_witness :
  splitAfter2 "token" "==" = Some ("t", "oken")
  /\ splitAfter2 "t" "===" = None.
Proof.
  split.
  - exact (proj2 (splitAfter2_separator_absent "token" "==" eq_refl)).
  - exact (proj2 (splitAfter2_separator_absent "t" "===" eq_refl)).
Defined.

(** ** The arguments of grant and revoke *)

Section EditAuthzArgs.

Context (X : External).

#[local] Opaque authz_paths.

Lemma flag_Parse_plain (u : M unit) (s : string) (rest : list string) :
  flag_like s = false -> flag_Parse u (s :: rest) = mret (s :: rest).
Proof.
  unfold flag_like, flag_Parse. intros H.
  replace ((len s <? 2) || negb (HasPrefix s "-")) with true; [reflexivity|].
  rewrite Z.ltb_antisym. destruct (2 <=? len s), (HasPrefix s "-"); done.
Qed.

Lemma double_dash (s : string) :
  flag_like s = true -> HasPrefix (drop 1 s) "-" = true -> len s = 2 -> s = "--".
Proof.
  unfold flag_like, HasPrefix, len. intros H1 H2 H3.
  destruct s as [|a [|b [|c s]]]; cbn [String.length drop String.prefix] in *;
    try lia; try discriminate.
  apply andb_true_iff in H1 as [_ H1].
  destruct (ascii_dec "-" a) as [<-|]; [|discriminate].
  destruct (ascii_dec "-" b) as [<-|]; [done|discriminate].
Qed.

Lemma editAuthz_arity client args action w :
  match args with [] => True | s :: _ => flag_like s = false end ->
  length args <> 2%nat ->
  editAuthz X client args action w
  = (Exited 2,
     {| logbuf := EmptyString; script := script w;
        trace := trace w ++ flushed (logbuf w)
                 ++ [EWrite Stderr
                       ("usage: corectl " +:+ action +:+ " [policy] [guard]" +:+ nl)] |}).
Proof.
  intros Hflag Hlen. unfold editAuthz.
  assert (Hp : forall u, flag_Parse u args = mret args).
  { intros u. destruct args as [|s rest]; [reflexivity|by apply flag_Parse_plain]. }
  rewrite Hp. unfold mbind at 1, M_bind at 1. unfold mret at 1, M_ret at 1.
  replace (length args =? 2)%nat with false by (symmetry; by apply Nat.eqb_neq).
  unfold_run. cbn -[String.append]. unfold flushed. norm_text. reflexivity.
Qed.

Lemma flag_Parse_flag (usage : M unit) (tail : list Event) s rest w :
  (forall w, usage w
             = (Exited 1, {| logbuf := logbuf w; script := script w;
                             trace := trace w ++ tail |})) ->
  flag_like s = true -> s <> "--" ->
  exists report,
    flag_Parse usage (s :: rest) w
    = (Exited 1,
       {| logbuf := logbuf w; script := script w; trace := trace w ++ report ++ tail |})
    /\ (report = []
        \/ report = [EWrite Stderr ("bad flag syntax: " +:+ s +:+ nl)]
        \/ exists name,
             report = [EWrite Stderr ("flag provided but not defined: -" +:+ name +:+ nl)]).
Proof.
  intros Hu Hflag Hdd. unfold flag_Parse.
  replace ((len s <? 2) || negb (HasPrefix s "-")) with false.
  2:{ unfold flag_like in Hflag. rewrite Z.ltb_antisym.
      destruct (2 <=? len s), (HasPrefix s "-"); done. }
  assert (Hcases : forall nm : nat,
    exists report,
      (if (len (drop nm s) =? 0) || HasPrefix (drop nm s) "-" || HasPrefix (drop nm s) "="
       then Fprintln Stderr ["bad flag syntax: " +:+ s];; usage;; mret (s :: rest)
       else
         let name := flag_name (drop nm s) in
         if decide (name = "help" \/ name = "h") then usage;; mret rest
         else
           Fprintln Stderr ["flag provided but not defined: -" +:+ name];;
           usage;; mret rest) w
      = (Exited 1,
         {| logbuf := logbuf w; script := script w; trace := trace w ++ report ++ tail |})
      /\ (report = []
          \/ report = [EWrite Stderr ("bad flag syntax: " +:+ s +:+ nl)]
          \/ exists name,
               report = [EWrite Stderr ("flag provided but not defined: -" +:+ name +:+ nl)])).
  { intros nm.
    destruct ((len (drop nm s) =? 0) || HasPrefix (drop nm s) "-" || HasPrefix (drop nm s) "=").
    - exists [EWrite Stderr ("bad flag syntax: " +:+ s +:+ nl)].
      split; [|right; left; reflexivity].
      unfold mbind, M_bind, Fprintln, emit. rewrite Hu.
      cbn [logbuf script trace Join]. norm_text. reflexivity.
    - cbv zeta. destruct (decide _).
      + exists []. split; [|by left].
        unfold mbind, M_bind. rewrite Hu. reflexivity.
      + exists [EWrite Stderr ("flag provided but not defined: -"
                               +:+ flag_name (drop nm s) +:+ nl)].
        split; [|right; right; eexists; reflexivity].
        unfold mbind, M_bind, Fprintln, emit. rewrite Hu.
        cbn [logbuf script trace Join]. norm_text. reflexivity. }
  destruct (HasPrefix (drop 1 s) "-") eqn:E1.
  - destruct (len s =? 2) eqn:E2.
    { apply Z.eqb_eq in E2. by destruct Hdd; apply double_dash. }
    cbn [Nat.eqb andb]. apply (Hcases 2%nat).
  - cbn [Nat.eqb andb]. apply (Hcases 1%nat).
Qed.

Lemma editAuthz_flag client s rest action w :
  flag_like s = true -> s <> "--" ->
  exists report,
    editAuthz X client (s :: rest) action w
    = (Exited 1,
       {| logbuf := logbuf w; script := script w;
          trace := trace w ++ report
                   ++ [EWrite Stderr
                         ("usage: corectl " +:+ action +:+ " [policy] [guard]" +:+ nl);
                       EWrite Stderr (guard_help +:+ nl)] |})
    /\ (report = []
        \/ report = [EWrite Stderr ("bad flag syntax: " +:+ s +:+ nl)]
        \/ exists name,
             report = [EWrite Stderr ("flag provided but not defined: -" +:+ name +:+ nl)]).
Proof.
  intros Hflag Hdd.
  unfold editAuthz.
  edestruct (flag_Parse_flag
               (Fprintln Stderr ["usage: corectl " +:+ action +:+ " [policy] [guard]"];;
                Fprintln Stderr [guard_help];; os_Exit 1)
               [EWrite Stderr (("usage: corectl " +:+ action +:+ " [policy] [guard]") +:+ nl);
                EWrite Stderr (guard_help +:+ nl)]
               s rest w) as (report & Hrun & Hrep); [|exact Hflag|exact Hdd|].
  { intros w0. unfold_run. cbn [logbuf script trace Join]. norm_text. reflexivity. }
  exists report. split; [|exact Hrep].
  erewrite bind_exited; [|exact Hrun]. norm_text. reflexivity.
Qed.

Lemma editAuthz_dashes_known client policy tok action typ data w guard_type guard_data :
  splitAfter2 tok "=" = Some (typ, data) ->
  (ToUpper X typ = "TOKEN=" /\ guard_type = "access_token"
     /\ guard_data = VMap [("id", VString data)])
  \/ (ToUpper X typ = "CN=" /\ guard_type = "x509"
     /\ guard_data = VMap [("subject", VMap [("CN", VString data)])])
  \/ (ToUpper X typ = "OU=" /\ guard_type = "x509"
     /\ guard_data = VMap [("subject", VMap [("OU", VString data)])]) ->
  editAuthz X client ["--"; policy; tok] action w
  = (err ← Call client (default EmptyString (authz_paths !! action))
             (ReqGrant {| Policy := policy; GuardType := guard_type;
                          GuardData := guard_data |});
     dieOnRPCError err []) w.
Proof.
  intros Hs Hcase. unfold editAuthz.
  change (flag_Parse ?u ["--"; policy; tok]) with (mret (M := M) [policy; tok]).
  unfold_run. cbn -[String.append ToUpper].
  rewrite Hs. cbn -[String.append ToUpper].
  destruct Hcase as [(E & -> & ->)|[(E & -> & ->)|(E & -> & ->)]]; rewrite E; reflexivity.
Qed.

End EditAuthzArgs.

(** X4. [grant] and [revoke] want exactly two arguments.  With none, or
    with another number of them that does not start with a flag, the
    command writes the buffered log and its usage line to the error stream
    and exits with status 2; no call is made. *)
Theorem editAuthz_wrong_arity X client args action w :
  match args with [] => True | s :: _ => flag_like s = false end ->
  length args <> 2%nat ->
  exists evs,
    editAuthz X client args action w
    = (Exited 2, {| logbuf := EmptyString; script := script w; trace := trace w ++ evs |})
    /\ written Stderr evs
       = logbuf w +:+ "usage: corectl " +:+ action +:+ " [policy] [guard]" +:+ nl
    /\ written Stdout evs = EmptyString
    /\ calls evs = [].
Proof.
  intros Hflag Hlen. eexists. split; [by apply editAuthz_arity|].
  rewrite !written_app, written_flushed, written_flushed_out, calls_app, calls_flushed.
  split; [|split; reflexivity]. simpl. by rewrite append_nil_r.
Qed.

Lemma editAuthz_wrong_arity_witness :
  exists evs,
    editAuthz (Sample.external ErrNoTLS) Sample.plain ["policy-a"] "grant"
      (Sample.world [Sample.ok])
    = (Exited 2, {| logbuf := EmptyString; script := [Sample.ok]; trace := [] ++ evs |})
    /\ written Stderr evs
       = EmptyString +:+ "usage: corectl " +:+ "grant" +:+ " [policy] [guard]" +:+ nl
    /\ written Stdout evs = EmptyString
    /\ calls evs = [].
Proof.
  apply (editAuthz_wrong_arity (Sample.external ErrNoTLS) Sample.plain ["policy-a"] "grant"
           (Sample.world [Sample.ok])); [reflexivity|discriminate].
Defined.

(** X5. A first argument of [grant] or [revoke] that starts with a dash
    (and is not [--]) is taken for a flag, and no flag is defined: the
    command writes at most one line about the flag, then its usage line and
    the description of guards, and exits with status 1.  On this path the
    buffered log is not written and stays in the buffer, and no call is
    made. *)
Theorem editAuthz_flag_argument X client s rest action w :
  flag_like s = true -> s <> "--" ->
  exists report,
    editAuthz X client (s :: rest) action w
    = (Exited 1,
       {| logbuf := logbuf w; script := script w;
          trace := trace w ++ report
                   ++ [EWrite Stderr
                         ("usage: corectl " +:+ action +:+ " [policy] [guard]" +:+ nl);
                       EWrite Stderr (guard_help +:+ nl)] |})
    /\ (report = []
        \/ report = [EWrite Stderr ("bad flag syntax: " +:+ s +:+ nl)]
        \/ exists name,
             report = [EWrite Stderr ("flag provided but not defined: -" +:+ name +:+ nl)]).
Proof. apply editAuthz_flag. Qed.

Lemma editAuthz_flag_argument_witness :
  exists report,
    editAuthz (Sample.external ErrNoTLS) Sample.plain ["-admins"; "CN=ops"] "grant"
      {| logbuf := "dial ok"; script := [Sample.ok]; trace := [] |}
    = (Exited 1,
       {| logbuf := "dial ok"; script := [Sample.ok];
          trace := [] ++ report
                   ++ [EWrite Stderr
                         ("usage: corectl " +:+ "grant" +:+ " [policy] [guard]" +:+ nl);
                       EWrite Stderr (guard_help +:+ nl)] |})
    /\ (report = []
        \/ report = [EWrite Stderr ("bad flag syntax: " +:+ "-admins" +:+ nl)]
        \/ exists name,
             report = [EWrite Stderr ("flag provided but not defined: -" +:+ name +:+ nl)]).
Proof.
  apply (editAuthz_flag_argument (Sample.external ErrNoTLS) Sample.plain "-admins" ["CN=ops"]
           "grant" {| logbuf := "dial ok"; script := [Sample.ok]; trace := [] |});
    [reflexivity|discriminate].
Defined.

(** X6. After a first argument [--] the two arguments that follow are
    taken as they are: a policy whose name starts with a dash can be granted
    or revoked that way, with the same requests as in C1. *)
Theorem editAuthz_after_double_dash X client policy prefix val action w :
  let sends (guard_type : string) (guard_data : value) :=
    editAuthz X client ["--"; policy; prefix +:+ "=" +:+ val] action w
    = (err ← Call client (default EmptyString (authz_paths !! action))
               (ReqGrant {| Policy := policy; GuardType := guard_type;
                            GuardData := guard_data |});
       dieOnRPCError err []) w in
  (matches_nocase prefix "token" ->
   sends "access_token" (VMap [("id", VString val)]))
  /\ (matches_nocase prefix "CN" ->
      sends "x509" (VMap [("subject", VMap [("CN", VString val)])]))
  /\ (matches_nocase prefix "OU" ->
      sends "x509" (VMap [("subject", VMap [("OU", VString val)])])).
Proof.
  intros sends. subst sends. cbv beta.
  repeat split; intros Hm;
    (eapply editAuthz_dashes_known;
     [apply splitAfter2_found; eapply matches_no_separator; [exact Hm|reflexivity]
     |rewrite (ToUpper_guard X _ _ Hm eq_refl)]).
  - left. done.
  - right; left. done.
  - right; right. done.
Qed.

Lemma editAuthz_after_double_dash_witness :
  let X := Sample.external ErrNoTLS in
  let w := Sample.world [Sample.ok] in
  let sent (guard : string) (r : grantReq) :=
    editAuthz X Sample.plain ["--"; "-admins"; guard] "revoke" w
    = (Returned tt,
       {| logbuf := EmptyString; script := [];
          trace := [ECall Sample.plain "/delete-authorization-grant" (ReqGrant r)] |}) in
  sent "Token=abc"
    {| Policy := "-admins"; GuardType := "access_token";
       GuardData := VMap [("id", VString "abc")] |}
  /\ sent "CN=ops"
       {| Policy := "-admins"; GuardType := "x509";
          GuardData := VMap [("subject", VMap [("CN", VString "ops")])] |}
  /\ sent "ou=ops"
       {| Policy := "-admins"; GuardType := "x509";
          GuardData := VMap [("subject", VMap [("OU", VString "ops")])] |}.
Proof.
  cbv zeta. split; [|split].
  - exact (eq_trans
             (proj1 (editAuthz_after_double_dash (Sample.external ErrNoTLS) Sample.plain
                       "-admins" "Token" "abc" "revoke" (Sample.world [Sample.ok])) eq_refl)
             eq_refl).
  - exact (eq_trans
             (proj1 (proj2 (editAuthz_after_double_dash (Sample.external ErrNoTLS)
                              Sample.plain "-admins" "CN" "ops" "revoke"
                              (Sample.world [Sample.ok]))) eq_refl)
             eq_refl).
  - exact (eq_trans
             (proj2 (proj2 (editAuthz_after_double_dash (Sample.external ErrNoTLS)
                              Sample.plain "-admins" "ou" "ops" "revoke"
                              (Sample.world [Sample.ok]))) eq_refl)
             eq_refl).
Defined.

(** ** The version flag *)

Lemma TrimPrefix_app (p r : string) : TrimPrefix (p +:+ r) p = r.
Proof. unfold TrimPrefix. by rewrite HasPrefix_app, drop_app_length. Qed.

Lemma main_version_run X e fuel w prog rest :
  os_Args e = prog :: "-version" :: rest ->
  main X e fuel w
  = (Returned tt,
     {| logbuf := logbuf w; script := script w;
        trace := trace w
                 ++ [EWrite Stdout
                       ("bytomcli "
                        +:+ (if decide (buildTag e <> "?")
                             then TrimPrefix (buildTag e) "bytom-" else EmptyString)
                        +:+ nl);
                     EWrite Stdout ("build-commit: " +:+ buildCommit e +:+ nl);
                     EWrite Stdout ("build-date: " +:+ buildDate e +:+ nl)] |}).
Proof.
  intros Hargs. unfold main. rewrite Hargs.
  cbn [length Nat.leb andb]. rewrite bool_decide_eq_true_2 by reflexivity.
  unfold_run. cbn [logbuf script trace]. norm_text. reflexivity.
Qed.

(** X7. With [-version] as the first argument, [main] writes three lines
    to standard output and returns: the tool with its version, the build
    commit and the build date.  Nothing else happens, whatever arguments
    follow and whatever the TLS files are: no client is built, no command
    runs, nothing goes to the error stream.  The version is the build tag
    without a leading [bytom-], and empty when the tag is [?]. *)
Theorem main_version X e fuel w prog rest :
  os_Args e = prog :: "-version" :: rest ->
  exists version,
    main X e fuel w
    = (Returned tt,
       {| logbuf := logbuf w; script := script w;
          trace := trace w
                   ++ [EWrite Stdout ("bytomcli " +:+ version +:+ nl);
                       EWrite Stdout ("build-commit: " +:+ buildCommit e +:+ nl);
                       EWrite Stdout ("build-date: " +:+ buildDate e +:+ nl)] |})
    /\ (buildTag e = "?" -> version = EmptyString)
    /\ (forall v, buildTag e = "bytom-" +:+ v -> version = v)
    /\ (buildTag e <> "?" -> HasPrefix (buildTag e) "bytom-" = false ->
        version = buildTag e).
Proof.
  intros Hargs. eexists. split; [by eapply main_version_run|].
  split; [|split].
  - intros ->. reflexivity.
  - intros v Hv. rewrite decide_True by (rewrite Hv; discriminate).
    rewrite Hv. apply TrimPrefix_app.
  - intros Hq Hp. rewrite decide_True by done. unfold TrimPrefix. by rewrite Hp.
Qed.

Lemma main_version_witness :
  exists version,
    main (Sample.external (TLSError "bad certificate"))
      {| os_Args := ["corectl"; "-version"; "grant"]; home := "/home/core";
         coreURL := "http://localhost:1999"; buildTag := "bytom-1.0.2";
         buildCommit := "4f2a"; buildDate := "2017-08-01";
         range_order := fun names => names |}
      1 (Sample.world [])
    = (Returned tt,
       {| logbuf := EmptyString; script := [];
          trace := [] ++ [EWrite Stdout ("bytomcli " +:+ version +:+ nl);
                          EWrite Stdout ("build-commit: " +:+ "4f2a" +:+ nl);
                          EWrite Stdout ("build-date: " +:+ "2017-08-01" +:+ nl)] |})
    /\ version = "1.0.2".
Proof.
  destruct (main_version (Sample.external (TLSError "bad certificate"))
              {| os_Args := ["corectl"; "-version"; "grant"]; home := "/home/core";
                 coreURL := "http://localhost:1999"; buildTag := "bytom-1.0.2";
                 buildCommit := "4f2a"; buildDate := "2017-08-01";
                 range_order := fun names => names |}
              1%nat (Sample.world []) "corectl" ["grant"] eq_refl)
    as (version & Hrun & _ & Hv & _).
  exists version. split; [exact Hrun|exact (Hv "1.0.2" eq_refl)].
Defined.

(** ** Handlers that take no argument *)

(** X8. [reset], [wait] and [build-transaction] take no argument: given
    any, each writes the buffered log and its own message to the error
    stream and exits with status 2 before any call to the core.  The
    message of [build-transaction] is the one of [updateAccountTags]. *)
Theorem handlers_reject_arguments client fuel a args w :
  let fails (h : rpc_Client -> list string -> M unit) (msg : string) :=
    h client (a :: args) w
    = (Exited 2,
       {| logbuf := EmptyString; script := script w;
          trace := trace w ++ flushed (logbuf w) ++ [EWrite Stderr (msg +:+ nl)] |}) in
  fails reset "error: reset takes no args"
  /\ fails (wait fuel) "error: wait takes no args"
  /\ fails buildTransaction "error:updateAccountTags not use args".
Proof.
  cbv zeta. split; [|split].
  - unfold reset. cbn [length Nat.eqb negb]. erewrite bind_exited; [|apply fatalln_run].
    reflexivity.
  - unfold wait. cbn [length Nat.eqb negb]. erewrite bind_exited; [|apply fatalln_run].
    reflexivity.
  - unfold buildTransaction. cbn [length Nat.eqb negb]. by rewrite fatalln_run.
Qed.

(** X9. [reset] without arguments makes one call, to [/reset], with the
    request [{"Everything":true}].  When the core answers without error the
    handler returns, having written nothing and kept the log in its buffer;
    when it answers with an error the process exits with status 2. *)
Theorem reset_request client w r rest :
  script w = r :: rest ->
  let req := ReqValue (VMap [("Everything", VBool true)]) in
  Json.Marshal req = Some (Json.text "{'Everything':true}")
  /\ (reply_err r = None ->
      reset client [] w
      = (Returned tt,
         {| logbuf := logbuf w +:+ reply_log r; script := rest;
            trace := trace w ++ [ECall client "/reset" req] |}))
  /\ (forall err, reply_err r = Some err ->
      exists report,
        reset client [] w
        = (Exited 2,
           {| logbuf := EmptyString; script := rest;
              trace := trace w ++ [ECall client "/reset" req]
                       ++ flushed (logbuf w +:+ reply_log r) ++ report |})
        /\ calls report = []).
Proof.
  intros Hs req. subst req. split; [reflexivity|]. split.
  - intros Hr. unfold reset, Call. unfold_run. cbn [length Nat.eqb negb].
    rewrite Hs, Hr. reflexivity.
  - intros err Hr.
    destruct (dieOnRPCError_run err []
                {| logbuf := logbuf w +:+ reply_log r; script := rest;
                   trace := trace w ++ [ECall client "/reset"
                                          (ReqValue (VMap [("Everything", VBool true)]))] |})
      as (report & Hrun & Hcalls & _).
    exists report. split; [|exact Hcalls].
    unfold reset, Call. unfold mbind, M_bind. cbn [length Nat.eqb negb].
    unfold mret at 1, M_ret at 1. rewrite Hs, Hr. cbn [logbuf script trace] in Hrun.
    rewrite Hrun.
    cbn [logbuf script trace app]. norm_text. reflexivity.
Qed.

Lemma reset_request_witness :
  reset Sample.plain [] (Sample.world [Sample.ok])
  = (Returned tt,
     {| logbuf := EmptyString +:+ EmptyString; script := [];
        trace := [] ++ [ECall Sample.plain "/reset"
                          (ReqValue (VMap [("Everything", VBool true)]))] |}).
Proof.
  exact (proj1 (proj2 (reset_request Sample.plain (Sample.world [Sample.ok]) Sample.ok []
                         eq_refl)) eq_refl).
Defined.

(** ** The bootstrap within a run *)

Lemma mustRPCClient_error X e w msg :
  core_TLSConfig X (filepath_Join X (home e) "tls.crt")
    (filepath_Join X (home e) "tls.key") EmptyString = TLSError msg ->
  mustRPCClient X e w
  = (Exited 2,
     {| logbuf := EmptyString; script := script w;
        trace := trace w ++ flushed (logbuf w)
                 ++ [EWrite Stderr ("error: loading TLS cert: " +:+ msg +:+ nl)] |}).
Proof.
  intros Ht. unfold mustRPCClient. rewrite Ht, fatalln_run.
  cbn [Join]. norm_text. reflexivity.
Qed.

(** X10. When the TLS files are there but cannot be loaded, every
    registered command ends the same way, whatever its arguments: the
    buffered log and the line [error: loading TLS cert:] with the error go
    to the error stream and the process exits with status 2.  The handler
    does not run and no call is made. *)
Theorem main_tls_error X e fuel w name cmd msg :
  os_Args e !! 1%nat = Some name ->
  commands X fuel !! name = Some cmd ->
  core_TLSConfig X (filepath_Join X (home e) "tls.crt")
    (filepath_Join X (home e) "tls.key") EmptyString = TLSError msg ->
  main X e fuel w
  = (Exited 2,
     {| logbuf := EmptyString; script := script w;
        trace := trace w ++ flushed (logbuf w)
                 ++ [EWrite Stderr ("error: loading TLS cert: " +:+ msg +:+ nl)] |}).
Proof.
  intros Hname Hcmd Ht. rewrite (main_known X e fuel name cmd w Hname Hcmd).
  apply bind_exited. by apply mustRPCClient_error.
Qed.

Lemma main_tls_error_witness :
  main (Sample.external (TLSError "tls: failed to find any PEM data"))
    (Sample.env ["wait"] "http://localhost:1999") 1
    {| logbuf := "reading tls.crt" +:+ nl; script := [Sample.ok]; trace := [] |}
  = (Exited 2,
     {| logbuf := EmptyString; script := [Sample.ok];
        trace := [] ++ flushed ("reading tls.crt" +:+ nl)
                 ++ [EWrite Stderr ("error: loading TLS cert: "
                                    +:+ "tls: failed to find any PEM data" +:+ nl)] |}).
Proof.
  apply (main_tls_error (Sample.external (TLSError "tls: failed to find any PEM data"))
           (Sample.env ["wait"] "http://localhost:1999") 1
           {| logbuf := "reading tls.crt" +:+ nl; script := [Sample.ok]; trace := [] |}
           "wait" {| f := wait 1 |});
    reflexivity.
Defined.

(** X11. Building the client contacts nobody and cannot panic: whatever
    the TLS files and the configured URL, [mustRPCClient] consumes no
    answer of the core and makes no call, and it either returns a client,
    having written nothing and left the log buffer alone, or exits with
    status 2. *)
Theorem mustRPCClient_makes_no_call X e w :
  exists evs,
    trace (mustRPCClient X e w).2 = trace w ++ evs
    /\ script (mustRPCClient X e w).2 = script w
    /\ calls evs = []
    /\ ((exists c, (mustRPCClient X e w).1 = Returned c
                   /\ evs = [] /\ logbuf (mustRPCClient X e w).2 = logbuf w)
        \/ (mustRPCClient X e w).1 = Exited 2).
Proof.
  destruct (core_TLSConfig X (filepath_Join X (home e) "tls.crt")
              (filepath_Join X (home e) "tls.key") EmptyString) as [|msg|config] eqn:Ht.
  - exists []. unfold mustRPCClient. rewrite Ht. cbn. rewrite app_nil_r.
    repeat split. left. by eexists.
  - rewrite (mustRPCClient_error X e w msg Ht). eexists. cbn [fst snd trace script].
    split; [reflexivity|]. split; [reflexivity|].
    split; [by rewrite calls_app, calls_flushed|by right].
  - rewrite (mustRPCClient_loaded X e w config Ht). exists [].
    cbn [fst snd]. rewrite app_nil_r. repeat split. left. by eexists.
Qed.

(** X12. The upgrade of the scheme is idempotent: bootstrapping again from
    the URL a TLS client was bound to binds the same URL. *)
Theorem mustRPCClient_upgrade_idempotent X e e' w w' c config config' :
  core_TLSConfig X (filepath_Join X (home e) "tls.crt")
    (filepath_Join X (home e) "tls.key") EmptyString = TLSLoaded config ->
  core_TLSConfig X (filepath_Join X (home e') "tls.crt")
    (filepath_Join X (home e') "tls.key") EmptyString = TLSLoaded config' ->
  (mustRPCClient X e w).1 = Returned c ->
  coreURL e' = BaseURL c ->
  exists c', (mustRPCClient X e' w').1 = Returned c' /\ BaseURL c' = BaseURL c.
Proof.
  intros Ht Ht' Hc Hurl.
  rewrite (mustRPCClient_loaded X e w config Ht) in Hc. injection Hc as <-.
  rewrite (mustRPCClient_loaded X e' w' config' Ht'). eexists. split; [reflexivity|].
  cbn [BaseURL] in *. rewrite Hurl.
  destruct (HasPrefix (coreURL e) "http:") eqn:Hh.
  - reflexivity.
  - by rewrite Hh.
Qed.

Lemma mustRPCClient_upgrade_idempotent_witness :
  exists c',
    (mustRPCClient (Sample.external (TLSLoaded Sample.config))
       (Sample.env ["wait"] "https://localhost:1999") (Sample.world [])).1 = Returned c'
    /\ BaseURL c' = "https://localhost:1999".
Proof.
  apply (mustRPCClient_upgrade_idempotent (Sample.external (TLSLoaded Sample.config))
           (Sample.env ["wait"] "http://localhost:1999")
           (Sample.env ["wait"] "https://localhost:1999")
           (Sample.world []) (Sample.world [])
           {| BaseURL := "https://localhost:1999";
              Client := Some {| Transport :=
                {| DialContext := {| Timeout := 30 * time_Second;
                                     KeepAlive := 30 * time_Second;
                                     DualStack := true |};
                   MaxIdleConns := 100;
                   IdleConnTimeout := 90 * time_Second;
                   TLSClientConfig := Sample.config;
                   TLSHandshakeTimeout := 10 * time_Second;
                   ExpectContinueTimeout := 1 * time_Second |} |} |}
           Sample.config Sample.config);
    reflexivity.
Defined.

(** ** The poller never fails *)

Lemma written_rounds (f : Stream) (c : rpc_Client) (n : nat) :
  written f (rounds c n) = EmptyString.
Proof. induction n as [|n IH]; [reflexivity|]. rewrite rounds_S. destruct f; exact IH. Qed.

Lemma for_ever_wait_shape (c : rpc_Client) (fuel : nat) :
  forall w, exists n evs l,
    trace (for_ever fuel (wait_body c) w).2 = trace w ++ evs
    /\ logbuf (for_ever fuel (wait_body c) w).2 = logbuf w +:+ l
    /\ (((for_ever fuel (wait_body c) w).1 = Returned tt
         \/ (for_ever fuel (wait_body c) w).1 = Blocked)
        /\ evs = rounds c n ++ [probe c]
        \/ (for_ever fuel (wait_body c) w).1 = OutOfFuel /\ evs = rounds c n).
Proof.
  induction fuel as [|fuel IH]; intros w.
  - exists 0%nat, [], EmptyString. cbn [for_ever fst snd]. rewrite app_nil_r, append_nil_r.
    split; [reflexivity|]. split; [reflexivity|]. right. by split.
  - cbn [for_ever]. unfold mbind, M_bind.
    destruct (script w) as [|r rest] eqn:Hs.
    + rewrite (body_blocked c w Hs). exists 0%nat, [probe c], EmptyString.
      cbn [fst snd trace logbuf]. rewrite append_nil_r.
      split; [reflexivity|]. split; [reflexivity|]. left. split; [by right|done].
    + destruct (retried r) eqn:Hr.
      * rewrite (body_retried c r rest w Hr Hs).
        destruct (IH {| logbuf := logbuf w +:+ reply_log r; script := rest;
                        trace := trace w ++ [probe c; ESleep (500 * time_Millisecond)] |})
          as (n & evs & l & Ht & Hl & Hcase).
        cbn [logbuf trace] in Ht, Hl.
        exists (S n), ([probe c; ESleep (500 * time_Millisecond)] ++ evs),
          (reply_log r +:+ l).
        split; [by rewrite Ht, <- app_assoc|]. split; [by rewrite Hl, append_assoc|].
        rewrite rounds_S.
        destruct Hcase as [[Ho ->]|[Ho ->]]; [left|right]; (split; [exact Ho|]);
          by rewrite <- ?app_assoc.
      * rewrite (body_answered c r rest w Hr Hs).
        exists 0%nat, [probe c], (reply_log r). cbn [fst snd trace logbuf].
        split; [reflexivity|]. split; [reflexivity|]. left. split; [by left|done].
Qed.

(** X13. [wait] without arguments never fails, whatever the core answers:
    it neither exits nor panics, writes nothing to either stream and leaves
    the log in its buffer.  All it does is probe [/info] and sleep 500 ms
    in turn.  So an error of another class than 5xx ends it as a success
    does, unreported. *)
Theorem wait_never_fails (c : rpc_Client) (fuel : nat) (w : World) :
  exists n evs l,
    trace (wait fuel c [] w).2 = trace w ++ evs
    /\ (evs = rounds c n ++ [probe c] \/ evs = rounds c n)
    /\ written Stderr evs = EmptyString
    /\ written Stdout evs = EmptyString
    /\ logbuf (wait fuel c [] w).2 = logbuf w +:+ l
    /\ ((wait fuel c [] w).1 = Returned tt
        \/ (wait fuel c [] w).1 = Blocked
        \/ (wait fuel c [] w).1 = OutOfFuel).
Proof.
  rewrite wait_unfold.
  destruct (for_ever_wait_shape c fuel w) as (n & evs & l & Ht & Hl & Hcase).
  exists n, evs, l. split; [exact Ht|].
  destruct Hcase as [[Ho ->]|[Ho ->]].
  - split; [by left|]. rewrite !written_app, !written_rounds.
    repeat split; try done. destruct Ho; auto.
  - split; [by right|]. rewrite !written_rounds. repeat split; try done. auto.
Qed.

(** ** The discipline of the log buffer *)

Section Orderly.

Context (flags : Prop).

Lemma quiet_refl (w : World) : quiet w [] w.
Proof.
  split; [reflexivity|]. split; [reflexivity|]. exists [].
  split; [reflexivity|]. cbn [logged foldr]. by rewrite append_nil_r.
Qed.

Lemma quiet_trans (w w1 w2 : World) (evs evs' : list Event) :
  quiet w evs w1 -> quiet w1 evs' w2 -> quiet w (evs ++ evs') w2.
Proof.
  intros (E1 & O1 & u1 & S1 & L1) (E2 & O2 & u2 & S2 & L2). unfold quiet.
  rewrite !written_app, E1, E2, O1, O2.
  split; [reflexivity|]. split; [reflexivity|]. exists (u1 ++ u2).
  split; [by rewrite S1, S2, app_assoc|].
  by rewrite L2, L1, logged_app, append_assoc.
Qed.

Lemma quiet_drained (w w1 w2 : World) (evs evs' : list Event) :
  quiet w evs w1 -> drained w1 evs' w2 -> drained w (evs ++ evs') w2.
Proof.
  intros (E1 & O1 & u1 & S1 & L1) (Hb & u2 & pre & post & S2 & E2).
  split; [exact Hb|]. exists (u1 ++ u2), pre, post.
  split; [by rewrite S1, S2, app_assoc|].
  rewrite written_app, E1, E2, L1, logged_app. cbn [String.append].
  by rewrite !append_assoc.
Qed.

Lemma orderly_weaken {A} (Q Q' : A -> Prop) (m : M A) :
  (forall a, Q a -> Q' a) -> orderly flags Q m -> orderly flags Q' m.
Proof.
  intros HQ Hm w. destruct (Hm w) as (evs & E & H). exists evs. split; [exact E|].
  destruct ((m w).1); try done. destruct H. split; auto.
Qed.

Lemma orderly_ret {A} (Q : A -> Prop) (a : A) : Q a -> orderly flags Q (mret a).
Proof.
  intros HQ w. exists []. split; [rewrite app_nil_r; reflexivity|].
  split; [exact HQ|apply quiet_refl].
Qed.

Lemma orderly_bind {A B} (Q : A -> Prop) (R : B -> Prop) (m : M A) (k : A -> M B) :
  orderly flags Q m -> (forall a, Q a -> orderly flags R (k a)) ->
  orderly flags R (m ≫= k).
Proof.
  intros Hm Hk w. destruct (Hm w) as (evs & E & H).
  unfold mbind, M_bind. destruct (m w) as [[a|n| | |] w1]; cbn [fst snd] in *;
    try (exists evs; by split).
  destruct H as [HQ Hq]. destruct (Hk a HQ w1) as (evs' & E' & H').
  exists (evs ++ evs'). split; [by rewrite E', E, app_assoc|].
  destruct (k a w1) as [[b|n| | |] w2]; cbn [fst snd] in *; try done.
  - destruct H' as [HR Hq']. split; [exact HR|by eapply quiet_trans].
  - destruct H' as [H'|[-> Hd]]; [by left|right]. split; [done|by eapply quiet_drained].
  - by eapply quiet_trans.
  - by eapply quiet_trans.
Qed.

Lemma orderly_Call (c : rpc_Client) (path : string) (r : Request) :
  orderly flags anything (Call c path r).
Proof.
  intros w. exists [ECall c path r]. unfold Call.
  destruct (script w) as [|rep rest] eqn:Hs; cbn [fst snd trace logbuf script];
    (split; [reflexivity|]).
  - split; [reflexivity|]. split; [reflexivity|]. exists [].
    split; [by rewrite Hs|]. cbn [logged foldr]. by rewrite append_nil_r.
  - split; [done|]. split; [reflexivity|]. split; [reflexivity|]. exists [rep].
    split; [by rewrite Hs|]. cbn [logged foldr]. by rewrite append_nil_r.
Qed.

Lemma orderly_Sleep (d : Z) : orderly flags anything (time_Sleep d).
Proof.
  intros w. exists [ESleep d]. split; [reflexivity|]. split; [done|].
  split; [reflexivity|]. split; [reflexivity|]. exists [].
  split; [reflexivity|]. cbn. by rewrite append_nil_r.
Qed.

Lemma orderly_fatalln {A} (Q : A -> Prop) (v : list string) : orderly flags Q (fatalln v).
Proof.
  intros w. rewrite fatalln_run. eexists. cbn [fst snd trace logbuf].
  split; [reflexivity|]. right. split; [done|]. split; [done|].
  exists [], EmptyString, (Join v " " +:+ nl). split; [reflexivity|].
  rewrite written_app, written_flushed. cbn. by rewrite !append_nil_r.
Qed.

Lemma orderly_dieOnRPCError (err : option error) (prefixes : list string) :
  orderly flags anything (dieOnRPCError err prefixes).
Proof.
  destruct err as [err|]; [|by apply orderly_ret].
  intros w. destruct (dieOnRPCError_run err prefixes w) as (report & Hrun & _).
  rewrite Hrun. eexists. cbn [fst snd trace logbuf].
  split; [reflexivity|]. right. split; [done|]. split; [done|].
  exists [], EmptyString, (written Stderr report). split; [reflexivity|].
  rewrite written_app, written_flushed. cbn. by rewrite append_nil_r.
Qed.

Lemma orderly_for_ever (fuel : nat) (body : M bool) :
  orderly flags anything body -> orderly flags anything (for_ever fuel body).
Proof.
  intros Hb. induction fuel as [|fuel IH].
  - intros w. exists []. cbn. rewrite app_nil_r. split; [done|apply quiet_refl].
  - cbn [for_ever]. eapply orderly_bind; [exact Hb|].
    intros [|] _; [by apply orderly_ret|exact IH].
Qed.

Lemma orderly_arity {A} (args : list A) (n : nat) (msg : string) :
  orderly flags (fun _ => length args = n)
    (if negb (length args =? n)%nat then fatalln [msg] else mret tt).
Proof.
  destruct (length args =? n)%nat eqn:E; cbn [negb].
  - apply orderly_ret. by apply Nat.eqb_eq.
  - apply orderly_fatalln.
Qed.

Lemma reset_orderly (c : rpc_Client) (args : list string) :
  orderly flags anything (reset c args).
Proof.
  unfold reset. eapply orderly_bind; [apply orderly_arity|intros _ _].
  eapply orderly_bind; [apply orderly_Call|intros err _]. apply orderly_dieOnRPCError.
Qed.

Lemma wait_orderly (fuel : nat) (c : rpc_Client) (args : list string) :
  orderly flags anything (wait fuel c args).
Proof.
  unfold wait. eapply orderly_bind; [apply orderly_arity|intros _ _].
  apply orderly_for_ever. unfold wait_body.
  eapply orderly_bind; [apply orderly_Call|intros [err|] _]; [|by apply orderly_ret].
  destruct (Root err) as [s|].
  - destruct (decide _); [by apply orderly_ret|].
    eapply orderly_bind; [apply orderly_Sleep|intros _ _]. by apply orderly_ret.
  - eapply orderly_bind; [apply orderly_Sleep|intros _ _]. by apply orderly_ret.
Qed.

Lemma buildTransaction_orderly (c : rpc_Client) (args : list string) :
  orderly flags anything (buildTransaction c args).
Proof.
  unfold buildTransaction. eapply orderly_weaken; [|apply (orderly_arity args 0)]. done.
Qed.

Lemma mustRPCClient_orderly X e : orderly flags anything (mustRPCClient X e).
Proof.
  intros w.
  destruct (core_TLSConfig X (filepath_Join X (home e) "tls.crt")
              (filepath_Join X (home e) "tls.key") EmptyString) as [|msg|config] eqn:Ht.
  - unfold mustRPCClient. rewrite Ht. by apply orderly_ret.
  - pose proof (orderly_fatalln (A := rpc_Client) anything
                  ["error: loading TLS cert:"; msg] w) as H.
    unfold mustRPCClient. rewrite Ht. exact H.
  - rewrite (mustRPCClient_loaded X e w config Ht). exists [].
    cbn [fst snd]. rewrite app_nil_r. split; [done|]. split; [done|apply quiet_refl].
Qed.

End Orderly.

Lemma editAuthz_orderly X (c : rpc_Client) (args : list string) (action : string) :
  orderly True anything (editAuthz X c args action).
Proof.
  unfold editAuthz.
  set (usage := "usage: corectl " +:+ action +:+ " [policy] [guard]").
  set (flags_Usage := Fprintln Stderr [usage];; Fprintln Stderr [guard_help];; os_Exit 1).
  assert (Hu : forall w, flags_Usage w
                         = (Exited 1,
                            {| logbuf := logbuf w; script := script w;
                               trace := trace w ++ [EWrite Stderr (usage +:+ nl);
                                                    EWrite Stderr (guard_help +:+ nl)] |})).
  { intros w. subst flags_Usage. unfold_run. cbn [logbuf script trace Join].
    rewrite <- !app_assoc. reflexivity. }
  eapply orderly_bind with (Q := anything).
  { intros w. destruct args as [|s rest].
    { by apply orderly_ret. }
    destruct (flag_like s) eqn:Hf.
    - destruct (decide (s = "--")) as [->|Hdd].
      + by apply (orderly_ret True anything rest).
      + destruct (flag_Parse_flag flags_Usage _ s rest w Hu Hf Hdd) as (report & Hrun & _).
        rewrite Hrun. eexists. cbn [fst snd trace].
        split; [reflexivity|]. by left.
    - rewrite flag_Parse_plain by done. by apply orderly_ret. }
  intros args' _.
  eapply orderly_bind; [apply (orderly_arity True args' 2)|].
  intros [] Hlen. cbv beta in Hlen.
  destruct args' as [|policy [|tok [|? ?]]]; try discriminate.
  unfold at_index. cbn [lookup list_lookup].
  eapply orderly_bind with (Q := fun x => x = policy); [by apply orderly_ret|intros ? ->].
  eapply orderly_bind with (Q := fun x => x = tok); [by apply orderly_ret|intros ? ->].
  destruct (splitAfter2_total tok) as (typ & data & Hs & _). rewrite Hs.
  eapply orderly_bind with (Q := anything); [by apply orderly_ret|intros [typ' data'] _].
  eapply orderly_bind with (Q := anything).
  { repeat (destruct (decide _); [by apply orderly_ret|]).
    intros w. pose proof (fatalln_run (A := grantReq) [usage] {| logbuf := logbuf w; script := script w; trace := trace w ++ [EWrite Stderr (Join ["unknown guard type"; typ'] " " +:+ nl)] |}) as Hrun.
    unfold mbind, M_bind, Fprintln, emit. rewrite Hrun. eexists. cbn [fst snd trace logbuf].
    split; [by rewrite <- app_assoc|]. right. split; [done|]. split; [done|].
    exists [], (Join ["unknown guard type"; typ'] " " +:+ nl), (Join [usage] " " +:+ nl).
    split; [reflexivity|].
    rewrite !written_app, written_flushed. cbn. by rewrite !append_nil_r. }
  intros req _. eapply orderly_bind; [apply orderly_Call|intros err _].
  apply orderly_dieOnRPCError.
Qed.

Lemma orderly_flags_mono {A} (flags flags' : Prop) (Q : A -> Prop) (m : M A) :
  (flags -> flags') -> orderly flags Q m -> orderly flags' Q m.
Proof.
  intros Hf Hm w. destruct (Hm w) as (evs & E & H). exists evs. split; [exact E|].
  destruct ((m w).1); try done. destruct H as [[-> H]|H]; [left; auto|by right].
Qed.

Lemma main_orderly X e fuel name :
  os_Args e !! 1%nat = Some name ->
  name ∈ studied_commands ->
  orderly (name = "grant" \/ name = "revoke") anything (main X e fuel).
Proof.
  intros Hname Hin.
  assert (Hcmd : exists cmd,
             commands X fuel !! name = Some cmd
             /\ forall c args,
                  orderly (name = "grant" \/ name = "revoke") anything (f cmd c args)).
  { unfold studied_commands in Hin.
    rewrite !elem_of_cons, elem_of_nil in Hin.
    destruct Hin as [->|[->|[->|[->|[->|[]]]]]].
    - exists {| f := reset |}. split; [reflexivity|]. intros c args. apply reset_orderly.
    - exists {| f := grant X |}. split; [reflexivity|]. intros c args.
      eapply orderly_flags_mono; [|apply editAuthz_orderly]. auto.
    - exists {| f := revoke X |}. split; [reflexivity|]. intros c args.
      eapply orderly_flags_mono; [|apply editAuthz_orderly]. auto.
    - exists {| f := wait fuel |}. split; [reflexivity|]. intros c args. apply wait_orderly.
    - exists {| f := buildTransaction |}. split; [reflexivity|]. intros c args.
      apply buildTransaction_orderly. }
  destruct Hcmd as (cmd & Hcmd & Hf). intros w.
  rewrite (main_known X e fuel name cmd w Hname Hcmd).
  apply (orderly_bind _ anything anything); [apply mustRPCClient_orderly|].
  intros c _. apply Hf.
Qed.

(** X14. The log buffer through a whole run of [reset], [grant], [revoke],
    [wait] or [build-transaction], whatever the arguments, the TLS files and
    the answers of the core.  The run consumes a first part of the answers
    of the core.  When [main] returns, nothing was written to either stream
    and the buffer holds what it held followed by the log output of each
    answer consumed, in order.  When the process exits with status 2, the
    buffer is empty and that same text, whole and in one piece, is on the
    error stream. *)
Theorem main_log_discipline X e fuel w name :
  os_Args e !! 1%nat = Some name ->
  name ∈ studied_commands ->
  exists evs,
    trace (main X e fuel w).2 = trace w ++ evs
    /\ ((main X e fuel w).1 = Returned tt ->
        written Stderr evs = EmptyString /\ written Stdout evs = EmptyString
        /\ exists used,
             script w = used ++ script (main X e fuel w).2
             /\ logbuf (main X e fuel w).2 = logbuf w +:+ logged used)
    /\ ((main X e fuel w).1 = Exited 2 ->
        logbuf (main X e fuel w).2 = EmptyString
        /\ exists used pre post,
             script w = used ++ script (main X e fuel w).2
             /\ written Stderr evs = pre +:+ (logbuf w +:+ logged used) +:+ post).
Proof.
  intros Hname Hin. destruct (main_orderly X e fuel name Hname Hin w) as (evs & E & H).
  exists evs. split; [exact E|].
  destruct ((main X e fuel w).1) as [[]|n| | |]; try done.
  - split; [intros _; apply H|discriminate].
  - split; [discriminate|]. intros [= ->]. destruct H as [[[=] _]|[_ H]]. exact H.
Qed.

Lemma main_log_discipline_witness :
  let X := Sample.external ErrNoTLS in
  let e := Sample.env ["reset"] "http://localhost:1999" in
  let w := {| logbuf := "dial ok" +:+ nl; script := [Sample.status 500; Sample.ok];
              trace := [] |} in
  exists evs,
    trace (main X e 1 w).2 = trace w ++ evs
    /\ ((main X e 1 w).1 = Returned tt ->
        written Stderr evs = EmptyString /\ written Stdout evs = EmptyString
        /\ exists used,
             script w = used ++ script (main X e 1 w).2
             /\ logbuf (main X e 1 w).2 = logbuf w +:+ logged used)
    /\ ((main X e 1 w).1 = Exited 2 ->
        logbuf (main X e 1 w).2 = EmptyString
        /\ exists used pre post,
             script w = used ++ script (main X e 1 w).2
             /\ written Stderr evs = pre +:+ (logbuf w +:+ logged used) +:+ post).
Proof.
  cbv zeta.
  apply (main_log_discipline (Sample.external ErrNoTLS)
           (Sample.env ["reset"] "http://localhost:1999") 1
           {| logbuf := "dial ok" +:+ nl; script := [Sample.status 500; Sample.ok];
              trace := [] |}
           "reset"); [reflexivity|].
  unfold studied_commands. apply list_elem_of_here.
Defined.

(** The run of the witness: the answer with status 500 is consumed, and
    the error stream starts with the buffered text followed by the log
    output of that answer. *)
Example main_log_discipline_run :
  let X := Sample.external ErrNoTLS in
  let e := Sample.env ["reset"] "http://localhost:1999" in
  let w := {| logbuf := "dial ok" +:+ nl; script := [Sample.status 500; Sample.ok];
              trace := [] |} in
  (main X e 1 w).1 = Exited 2
  /\ script (main X e 1 w).2 = [Sample.ok]
  /\ written Stderr (trace (main X e 1 w).2)
     = ("dial ok" +:+ nl +:+ logged [Sample.status 500])
       +:+ "RPC error: rpc status" +:+ nl.
Proof. cbv zeta. split; [reflexivity|]. split; reflexivity. Qed.

(** X15. A run of one of these five commands never ends in a run-time
    panic (no index or slice out of range), and when the process exits it
    is with status 2, or with status 1 for [grant] and [revoke] only. *)
Theorem main_exit_status X e fuel w name :
  os_Args e !! 1%nat = Some name ->
  name ∈ studied_commands ->
  (main X e fuel w).1 <> Panicked
  /\ forall n, (main X e fuel w).1 = Exited n ->
       n = 2 \/ (n = 1 /\ (name = "grant" \/ name = "revoke")).
Proof.
  intros Hname Hin. destruct (main_orderly X e fuel name Hname Hin w) as (evs & E & H).
  destruct ((main X e fuel w).1) as [[]|n| | |]; try done.
  split; [discriminate|]. intros n' [= <-]. destruct H as [[-> H]|[-> _]]; auto.
Qed.

Lemma main_exit_status_witness :
  let X := Sample.external ErrNoTLS in
  let e := Sample.env ["grant"; "-h"] "http://localhost:1999" in
  (main X e 1 (Sample.world [])).1 <> Panicked
  /\ forall n, (main X e 1 (Sample.world [])).1 = Exited n ->
       n = 2 \/ (n = 1 /\ ("grant" = "grant" \/ "grant" = "revoke")).
Proof.
  cbv zeta.
  apply (main_exit_status (Sample.external ErrNoTLS)
           (Sample.env ["grant"; "-h"] "http://localhost:1999") 1 (Sample.world [])
           "grant"); [reflexivity|].
  unfold studied_commands. apply list_elem_of_further, list_elem_of_here.
Defined.

(** ** The usage text *)

Lemma keys_of_map (m : gmap string command) (name : string) :
  is_Some (m !! name) -> In name (map fst (map_to_list m)).
Proof.
  intros [cmd Hcmd]. apply in_map_iff. exists (name, cmd). split; [reflexivity|].
  apply list_elem_of_In, elem_of_map_to_list. exact Hcmd.
Qed.

Lemma commands_count X fuel : length (map_to_list (commands X fuel)) = 10%nat.
Proof. by vm_compute. Qed.

(** X16. [help] writes fifteen pieces of text, all to the stream it is
    given, and returns.  Whatever the order in which the runtime visits the
    map, as long as it visits each key once, every registered command has
    its line, a tab, a space and the name. *)
Theorem help_lists_commands X e fuel (out : Stream) w :
  range_order e (map fst (map_to_list (commands X fuel)))
    ≡ₚ map fst (map_to_list (commands X fuel)) ->
  exists texts,
    help X e fuel out w
    = (Returned tt,
       {| logbuf := logbuf w; script := script w;
          trace := trace w ++ map (EWrite out) texts |})
    /\ length texts = 15%nat
    /\ forall name,
         is_Some (commands X fuel !! name) ->
         tab +:+ " " +:+ name +:+ nl ∈ texts.
Proof.
  intros Hperm.
  exists (help_lines (range_order e (map fst (map_to_list (commands X fuel))))).
  split; [apply help_with_run|]. split.
  - unfold help_lines.
    rewrite !length_app, length_map, (Permutation_length Hperm), length_map, commands_count.
    reflexivity.
  - intros name Hcmd. apply list_elem_of_In. unfold help_lines.
    apply in_or_app. right. apply in_or_app. left.
    apply (in_map (fun name => tab +:+ " " +:+ name +:+ nl)).
    apply (Permutation_in _ (Permutation_sym Hperm)).
    by apply keys_of_map.
Qed.

Lemma help_lists_commands_witness :
  exists texts,
    help (Sample.external ErrNoTLS) (Sample.env [] "http://localhost:1999") 1 Stdout
      (Sample.world [])
    = (Returned tt,
       {| logbuf := EmptyString; script := []; trace := [] ++ map (EWrite Stdout) texts |})
    /\ length texts = 15%nat
    /\ forall name,
         is_Some (commands (Sample.external ErrNoTLS) 1 !! name) ->
         tab +:+ " " +:+ name +:+ nl ∈ texts.
Proof.
  apply (help_lists_commands (Sample.external ErrNoTLS)
           (Sample.env [] "http://localhost:1999") 1 Stdout (Sample.world [])).
  cbv beta iota delta [range_order Sample.env]. apply Permutation_refl.
Defined.

(** * The guard type in the message, and what is posted *)

(** C6, as the code has it.  The type that [editAuthz] tests and prints is
    the guard up to and including its first [=].  For a guard [p=v] whose
    [p=] is none of [TOKEN=], [CN=], [OU=] once upper-cased, the error
    stream gets the line [unknown guard type p=], then the buffered log and
    the usage line of the command, nothing goes to standard output, no call
    is made and the process exits with status 2: the output holds [p=] as
    it was typed.  For a guard without [=] the same happens with an empty
    type: the line is [unknown guard type] followed by a space, and the
    guard itself is not printed. *)
Theorem editAuthz_unknown_guard_type X client policy tok action w :
  HasPrefix policy "-" = false ->
  let usage := "usage: corectl " +:+ action +:+ " [policy] [guard]" in
  let fails (typ : string) :=
    exists evs,
      editAuthz X client [policy; tok] action w
      = (Exited 2, {| logbuf := EmptyString; script := script w; trace := trace w ++ evs |})
      /\ evs = [EWrite Stderr ("unknown guard type " +:+ typ +:+ nl)]
               ++ flushed (logbuf w)
               ++ [EWrite Stderr (usage +:+ nl)]
      /\ written Stderr evs
         = "unknown guard type " +:+ typ +:+ nl +:+ logbuf w +:+ usage +:+ nl
      /\ written Stdout evs = EmptyString
      /\ calls evs = [] in
  (forall p v,
     tok = p +:+ "=" +:+ v -> Index p "=" = -1 ->
     ToUpper X (p +:+ "=") <> "TOKEN=" ->
     ToUpper X (p +:+ "=") <> "CN=" ->
     ToUpper X (p +:+ "=") <> "OU=" ->
     fails (p +:+ "="))
  /\ (Index tok "=" = -1 -> fails EmptyString).
Proof.
  intros Hp usage fails. subst fails usage. cbv beta. split.
  - intros p v -> Hi H1 H2 H3. apply Index_absent in Hi.
    exact (editAuthz_unknown_report X client policy (p +:+ "=" +:+ v) action
             (p +:+ "=") v w Hp (splitAfter2_found p v Hi) H1 H2 H3).
  - intros Hi. apply Index_absent in Hi.
    apply (editAuthz_unknown_report X client policy tok action EmptyString tok w Hp
             (splitAfter2_absent tok Hi)); discriminate.
Qed.

Lemma editAuthz_unknown_guard_type_witness :
  let X := Sample.external ErrNoTLS in
  let w := {| logbuf := "dial ok" +:+ nl; script := [Sample.ok]; trace := [] |} in
  let fails (tok typ : string) :=
    exists evs,
      editAuthz X Sample.plain ["policy-a"; tok] "revoke" w
      = (Exited 2, {| logbuf := EmptyString; script := [Sample.ok]; trace := [] ++ evs |})
      /\ evs = [EWrite Stderr ("unknown guard type " +:+ typ +:+ nl)]
               ++ flushed ("dial ok" +:+ nl)
               ++ [EWrite Stderr (("usage: corectl " +:+ "revoke" +:+ " [policy] [guard]")
                                  +:+ nl)]
      /\ written Stderr evs
         = "unknown guard type " +:+ typ +:+ nl +:+ ("dial ok" +:+ nl)
           +:+ ("usage: corectl " +:+ "revoke" +:+ " [policy] [guard]") +:+ nl
      /\ written Stdout evs = EmptyString
      /\ calls evs = [] in
  fails "uid=alice" "uid=" /\ fails "uid" EmptyString.
Proof.
  cbv zeta. split.
  - apply (proj1 (editAuthz_unknown_guard_type (Sample.external ErrNoTLS) Sample.plain
                    "policy-a" "uid=alice" "revoke"
                    {| logbuf := "dial ok" +:+ nl; script := [Sample.ok]; trace := [] |}
                    eq_refl) "uid" "alice");
      [reflexivity | reflexivity | discriminate | discriminate | discriminate].
  - apply (proj2 (editAuthz_unknown_guard_type (Sample.external ErrNoTLS) Sample.plain
                    "policy-a" "uid" "revoke"
                    {| logbuf := "dial ok" +:+ nl; script := [Sample.ok]; trace := [] |}
                    eq_refl)).
    reflexivity.
Defined.

(** C6, as stated, fails: the guard [uid] is none of the three types, and
    the process exits with status 2, but what it wrote to the error stream
    does not hold [uid]: the type printed is empty. *)
Lemma editAuthz_unknown_guard_type_counterexample :
  let out := editAuthz (Sample.external ErrNoTLS) Sample.plain ["policy-a"; "uid"] "grant"
               (Sample.world [Sample.ok]) in
  splitAfter2 "uid" "=" = Some (EmptyString, "uid")
  /\ out.1 = Exited 2
  /\ written Stderr (trace out.2)
     = "unknown guard type " +:+ nl +:+ "usage: corectl grant [policy] [guard]" +:+ nl
  /\ Index (written Stderr (trace out.2)) "uid" = -1.
Proof. cbv zeta. split; [reflexivity|]. split; [reflexivity|]. split; reflexivity. Qed.

(** The call of [editAuthz] and what follows it: the call is the one event
    of its kind. *)
Lemma call_then_die (client : rpc_Client) (path : string) (req : Request) (w : World) :
  exists rest,
    trace ((err ← Call client path req; dieOnRPCError err []) w).2
    = trace w ++ ECall client path req :: rest
    /\ calls rest = [].
Proof.
  unfold mbind, M_bind, Call. destruct (script w) as [|rep more].
  - exists []. by split.
  - destruct (reply_err rep) as [err|].
    + destruct (dieOnRPCError_run err []
                  {| logbuf := logbuf w +:+ reply_log rep; script := more;
                     trace := trace w ++ [ECall client path req] |})
        as (report & Hrun & Hcalls & _).
      rewrite Hrun. exists (flushed (logbuf w +:+ reply_log rep) ++ report).
      cbn [fst snd trace logbuf]. split; [by rewrite <- app_assoc|].
      by rewrite calls_app, calls_flushed.
    + exists []. by split.
Qed.

Lemma call_then_return (client : rpc_Client) (path : string) (req : Request)
    (w : World) (rep : Reply) (more : list Reply) :
  script w = rep :: more -> reply_err rep = None ->
  (err ← Call client path req; dieOnRPCError err []) w
  = (Returned tt,
     {| logbuf := logbuf w +:+ reply_log rep; script := more;
        trace := trace w ++ [ECall client path req] |}).
Proof. intros Hs Hr. unfold mbind, M_bind, Call. by rewrite Hs, Hr. Qed.

(** C8. [grant policy-a "CN=Org Admins"] posts to
    [/create-authorization-grant], and [revoke policy-a token=abc123] to
    [/delete-authorization-grant]: whatever the world, the run adds one call
    to the trace, on the client it was given, to that path, and the JSON
    text of the request it carries is the one given.  When the core answers
    without error the call is all the run does, and the handler returns. *)
Theorem grant_revoke_wire_payloads X client w :
  let posts (out : Outcome unit * World) (path body : string) :=
    exists evs,
      trace out.2 = trace w ++ evs
      /\ map (fun call => (call.1.1, call.1.2, Json.Marshal call.2)) (calls evs)
         = [(client, path, Some (Json.text body))] in
  let returns (out : Outcome unit * World) (path : string) (req : grantReq) :=
    forall rep more,
      script w = rep :: more -> reply_err rep = None ->
      out = (Returned tt,
             {| logbuf := logbuf w +:+ reply_log rep; script := more;
                trace := trace w ++ [ECall client path (ReqGrant req)] |}) in
  posts (grant X client ["policy-a"; "CN=Org Admins"] w)
    "/create-authorization-grant"
    "{'policy':'policy-a','guard_type':'x509','guard_data':{'subject':{'CN':'Org Admins'}}}"
  /\ posts (revoke X client ["policy-a"; "token=abc123"] w)
       "/delete-authorization-grant"
       "{'policy':'policy-a','guard_type':'access_token','guard_data':{'id':'abc123'}}"
  /\ returns (grant X client ["policy-a"; "CN=Org Admins"] w)
       "/create-authorization-grant"
       {| Policy := "policy-a"; GuardType := "x509";
          GuardData := VMap [("subject", VMap [("CN", VString "Org Admins")])] |}
  /\ returns (revoke X client ["policy-a"; "token=abc123"] w)
       "/delete-authorization-grant"
       {| Policy := "policy-a"; GuardType := "access_token";
          GuardData := VMap [("id", VString "abc123")] |}.
Proof.
  cbv zeta.
  assert (Hg : grant X client ["policy-a"; "CN=Org Admins"] w
               = (err ← Call client "/create-authorization-grant"
                          (ReqGrant {| Policy := "policy-a"; GuardType := "x509";
                                       GuardData := VMap [("subject",
                                                     VMap [("CN", VString "Org Admins")])] |});
                  dieOnRPCError err []) w).
  { unfold grant.
    rewrite (editAuthz_known X client "policy-a" "CN=Org Admins" "grant" "CN=" "Org Admins" w
               "x509" (VMap [("subject", VMap [("CN", VString "Org Admins")])]) eq_refl eq_refl);
      [reflexivity|].
    right; left. done. }
  assert (Hr : revoke X client ["policy-a"; "token=abc123"] w
               = (err ← Call client "/delete-authorization-grant"
                          (ReqGrant {| Policy := "policy-a"; GuardType := "access_token";
                                       GuardData := VMap [("id", VString "abc123")] |});
                  dieOnRPCError err []) w).
  { unfold revoke.
    rewrite (editAuthz_known X client "policy-a" "token=abc123" "revoke" "token=" "abc123" w
               "access_token" (VMap [("id", VString "abc123")]) eq_refl eq_refl);
      [reflexivity|].
    left. done. }
  rewrite Hg, Hr. split; [|split; [|split]].
  - destruct (call_then_die client "/create-authorization-grant"
                (ReqGrant {| Policy := "policy-a"; GuardType := "x509";
                             GuardData := VMap [("subject",
                                           VMap [("CN", VString "Org Admins")])] |}) w)
      as (rest & Ht & Hc).
    eexists. split; [exact Ht|]. cbn [calls map]. rewrite Hc. reflexivity.
  - destruct (call_then_die client "/delete-authorization-grant"
                (ReqGrant {| Policy := "policy-a"; GuardType := "access_token";
                             GuardData := VMap [("id", VString "abc123")] |}) w)
      as (rest & Ht & Hc).
    eexists. split; [exact Ht|]. cbn [calls map]. rewrite Hc. reflexivity.
  - intros rep more Hs He. by apply call_then_return.
  - intros rep more Hs He. by apply call_then_return.
Qed.

Lemma grant_revoke_wire_payloads_witness :
  let X := Sample.external ErrNoTLS in
  grant X Sample.plain ["policy-a"; "CN=Org Admins"] (Sample.world [Sample.ok])
  = (Returned tt,
     {| logbuf := EmptyString +:+ EmptyString; script := [];
        trace := [] ++ [ECall Sample.plain "/create-authorization-grant"
                          (ReqGrant {| Policy := "policy-a"; GuardType := "x509";
                                       GuardData := VMap [("subject",
                                                     VMap [("CN", VString "Org Admins")])] |})] |})
  /\ revoke X Sample.plain ["policy-a"; "token=abc123"] (Sample.world [Sample.ok])
     = (Returned tt,
        {| logbuf := EmptyString +:+ EmptyString; script := [];
           trace := [] ++ [ECall Sample.plain "/delete-authorization-grant"
                             (ReqGrant {| Policy := "policy-a"; GuardType := "access_token";
                                          GuardData := VMap [("id", VString "abc123")] |})] |}).
Proof.
  cbv zeta. split.
  - exact (proj1 (proj2 (proj2 (grant_revoke_wire_payloads (Sample.external ErrNoTLS)
                                  Sample.plain (Sample.world [Sample.ok]))))
             Sample.ok [] eq_refl eq_refl).
  - exact (proj2 (proj2 (proj2 (grant_revoke_wire_payloads (Sample.external ErrNoTLS)
                                  Sample.plain (Sample.world [Sample.ok]))))
             Sample.ok [] eq_refl eq_refl).
Defined.
